(** * The record pool reducer of ra-tree-core (reducers/data.ts)

    A shallow embedding of [hideFetchedAt], [addRecords], [removeRecords],
    [dataReducer] and [getRecord], and the properties of the record pool
    that follow from them.

    Modelling choices, all taken from the source:
    - a JavaScript object is the finite map of its own properties, keyed
      by strings ([gmap string _]); properties inherited from
      [Object.prototype] are not part of the model;
    - a field of a record holds a primitive: [undefined], [null], a
      boolean, a number or a string.  Numbers are the integer-valued ones
      (a [Z], exact below 2^53) and [NaN];
    - a pool is one object: its records are its enumerable properties and
      its metadata map is the property [fetchedAt], which [hideFetchedAt]
      makes non enumerable.  Both live in the same name space;
    - a timestamp is the time value of a [Date], in milliseconds;
    - an expression that can raise a [TypeError] is evaluated in the
      [outcome] monad, which also has an outcome for the two operations
      that leave this fragment of the language: the comparison of a
      string with a number, and an array used where a record is
      expected;
    - the order in which [Object.keys] lists the keys is a parameter. *)

From Stdlib Require Import ZArith Lia Ascii String.
From stdpp Require Import base option list strings gmap pretty.

Open Scope string_scope.
Open Scope Z_scope.

(** ** Primitive values and the operators the reducer applies to them *)

Inductive value : Type :=
  | VUndef
  | VNull
  | VBool (b : bool)
  | VNum (n : Z)
  | VNaN
  | VStr (s : string).

#[global] Instance value_eq_dec : EqDecision value.
Proof. solve_decision. Defined.

#[global] Instance value_inhabited : Inhabited value := populate VUndef.

(** A plain object with primitive fields: a record, or the metadata map. *)
Abbreviation obj := (gmap string value).

(** What a property of the pool holds: [undefined] or an object. *)
Abbreviation slot := (option (gmap string value)).

(** [o[k]]: reading an absent property gives [undefined]. *)
Definition read (o : obj) (k : string) : value := default VUndef (o !! k).

(** The property key a value is converted to when it indexes an object
    ([ToPropertyKey]). *)
Definition key_of (v : value) : string :=
  match v with
  | VUndef => "undefined"
  | VNull => "null"
  | VBool true => "true"
  | VBool false => "false"
  | VNum n => pretty n
  | VNaN => "NaN"
  | VStr s => s
  end.

(** [a === b] *)
Definition strict_eq (a b : value) : bool :=
  match a, b with
  | VNaN, _ | _, VNaN => false
  | _, _ => bool_decide (a = b)
  end.

(** The comparison of [Array.prototype.includes] ([SameValueZero]): no
    conversion between numbers and strings, and [NaN] equals itself. *)
Definition same_value_zero (a b : value) : bool := bool_decide (a = b).

(** [ToNumber] on the primitives other than strings; [None] is [NaN]. *)
Definition to_number (v : value) : option Z :=
  match v with
  | VUndef | VNaN | VStr _ => None
  | VNull => Some 0
  | VBool b => Some (if b then 1 else 0)
  | VNum n => Some n
  end.

(** [a >= b].  Two strings are compared as strings; otherwise both sides
    are converted to numbers and a [NaN] makes the comparison false.  The
    conversion of a string to a number is not modelled: [None]. *)
Definition js_ge (a b : value) : option bool :=
  match a, b with
  | VStr s, VStr t => Some (String.leb t s)
  | VStr _, _ | _, VStr _ => None
  | _, _ =>
      Some match to_number a, to_number b with
           | Some x, Some y => bool_decide (y ≤ x)
           | _, _ => false
           end
  end.

(** [a + 1]: concatenation on a string, addition on the rest. *)
Definition js_add1 (a : value) : value :=
  match a with
  | VStr s => VStr (s +:+ "1")
  | _ => match to_number a with
         | Some x => VNum (x + 1)
         | None => VNaN
         end
  end.

(** ** Outcomes

    [Returns]: the expression has a value.  [Throws]: it raises a
    [TypeError].  [Unmodelled]: it has a value in JavaScript that the
    primitives above cannot express. *)

Inductive outcome (A : Type) : Type :=
  | Returns (a : A)
  | Throws
  | Unmodelled.
Arguments Returns {A} a.
Arguments Throws {A}.
Arguments Unmodelled {A}.

#[global] Instance outcome_ret : MRet outcome := λ A a, Returns a.
#[global] Instance outcome_bind : MBind outcome := λ A B f m,
  match m with
  | Returns a => f a
  | Throws => Throws
  | Unmodelled => Unmodelled
  end.

(** [l.filter(p)] for a predicate that may raise. *)
Fixpoint filterM {A} (p : A → outcome bool) (l : list A) : outcome (list A) :=
  match l with
  | [] => Returns []
  | x :: l' =>
      b ← p x;
      r ← filterM p l';
      Returns (if b : bool then x :: r else r)
  end.

(** ** Enumeration of own keys

    [Object.keys] lists every own enumerable key once; the order is the
    engine's.  The development holds for every such enumeration. *)
Class OwnKeys := {
  ownKeys : ∀ {A}, gmap string A → list string;
  ownKeys_elem : ∀ A (m : gmap string A) k, k ∈ ownKeys m ↔ is_Some (m !! k);
  ownKeys_NoDup : ∀ A (m : gmap string A), NoDup (ownKeys m);
}.

(** One enumeration, used to run the model on concrete pools. *)
#[global, refine] Instance stored_order : OwnKeys :=
  {| ownKeys A m := (map_to_list m).*1 |}.
Proof.
  - intros A m k. rewrite list_elem_of_fmap. split.
    + intros [[k' x] [-> Hx]]. apply elem_of_map_to_list in Hx. by exists x.
    + intros [x Hx]. exists (k, x). split; [done|]. by apply elem_of_map_to_list.
  - intros A m. apply NoDup_fst_map_to_list.
Defined.

(** ** The pool *)

(** [RecordSetWithDate]: the records indexed by id ([entries], the
    enumerable properties) and the property [fetchedAt], which is not
    enumerable. *)
Record RecordSetWithDate : Type := {
  fetchedAt : slot;
  entries : gmap string slot;
}.

(** [state[k]] *)
Definition prop (state : RecordSetWithDate) (k : string) : slot :=
  if decide (k = "fetchedAt") then fetchedAt state
  else mjoin (entries state !! k).

(** [hideFetchedAt records]: [records] is a plain object all of whose
    properties are enumerable; the result is the same object with
    [fetchedAt] no longer enumerable. *)
Definition hideFetchedAt (records : gmap string slot) : RecordSetWithDate :=
  {| fetchedAt := mjoin (records !! "fetchedAt");
     entries := delete "fetchedAt" records |}.

Definition initialState : RecordSetWithDate :=
  hideFetchedAt {[ "fetchedAt" := Some ∅ ]}.

(** [getRecord state id = state[id]] *)
Definition getRecord (state : RecordSetWithDate) (id : value) : slot :=
  prop state (key_of id).

(** [a || b] on slots: an object is truthy, [undefined] is not. *)
Definition or_slot (a b : slot) : slot :=
  match a with
  | Some _ => a
  | None => b
  end.

(** Modelled from the spec: [getFetchedAt] is imported from ra-core and is
    not part of this package.  The spec gives its result as the old
    metadata map, unchanged, with every identifier of the new records
    refreshed to the current instant.  [now] is the reading of the clock,
    the time value of [new Date()]; a missing old map counts as empty. *)
Definition getFetchedAt (now : Z) (newRecordIds : list value)
    (oldRecordFetchedAt : slot) : obj :=
  foldl (λ acc id, <[key_of id := VNum now]> acc)
        (default ∅ oldRecordFetchedAt) newRecordIds.

Section Reducer.
Context `{OwnKeys}.

(** [newRecords.forEach(record => (newRecordsById[record.id] = record))] *)
Definition indexById (newRecords : list obj) : gmap string obj :=
  foldl (λ acc record, <[key_of (read record "id") := record]> acc) ∅ newRecords.

(** "Add new records to the pool": the keys of the result are the keys of
    the new metadata map, and each holds the new record of that id when
    there is one, the old property otherwise.  The assignments go to the
    object that already holds [fetchedAt]. *)
Definition addRecords (now : Z) (newRecords : list obj)
    (oldRecords : RecordSetWithDate) : RecordSetWithDate :=
  let newRecordsById := indexById newRecords in
  let newFetchedAt :=
    getFetchedAt now ((λ r, read r "id") <$> newRecords) (fetchedAt oldRecords) in
  let records :=
    foldl (λ acc id,
             <[id := or_slot (newRecordsById !! id) (prop oldRecords id)]> acc)
          {[ "fetchedAt" := Some newFetchedAt ]}
          (ownKeys newFetchedAt) in
  hideFetchedAt records.

(** [removedRecordIds.includes(key)] for a key of [Object.entries], which
    is a string. *)
Definition includes (removedRecordIds : list value) (key : string) : bool :=
  existsb (λ id, same_value_zero id (VStr key)) removedRecordIds.

(** "Remove records from the pool": the enumerable properties whose key
    is not among [removedRecordIds], copied over [{ fetchedAt: {} }]; then
    [fetchedAt] is assigned the entries of the old metadata map filtered in
    the same way.  [Object.entries] raises on [undefined]. *)
Definition removeRecords (removedRecordIds : list value)
    (oldRecords : RecordSetWithDate) : outcome RecordSetWithDate :=
  let records : gmap string slot :=
    filter (λ kv, ¬ includes removedRecordIds kv.1) (entries oldRecords)
    ∪ {[ "fetchedAt" := Some ∅ ]} in
  match fetchedAt oldRecords with
  | None => Throws
  | Some dates =>
      let kept : obj := filter (λ kv, ¬ includes removedRecordIds kv.1) dates in
      Returns (hideFetchedAt (<["fetchedAt" := Some kept]> records))
  end.

(** ** Events *)

(** Modelled from the spec: the constants imported from ra-core and from
    ../actions are tags, distinct from one another; [OTHER] is any other
    tag. *)
Inductive fetchType : Type :=
  | GET_LIST | GET_ONE | GET_MANY | GET_MANY_REFERENCE
  | CREATE | UPDATE | UPDATE_MANY | DELETE | DELETE_MANY
  | GET_TREE_ROOT_NODES | GET_TREE_CHILDREN_NODES | MOVE_NODE
  | OTHER (tag : string).

Inductive fetchStatusType : Type :=
  | FETCH_START | FETCH_END | FETCH_ERROR | FETCH_CANCEL.

(** [payload.data]: absent, one object, or an array of records. *)
Inductive dataField : Type :=
  | DataUndefined
  | DataObject (o : obj)
  | DataArray (rs : list obj).

Record payloadType : Type := {
  id : value;
  ids : option (list value);
  data : dataField;
}.

Record metaType : Type := {
  optimistic : bool;
  fetch : option fetchType;
  parentSource : option string;
  positionSource : option string;
  fetchResponse : option fetchType;
  fetchStatus : option fetchStatusType;
}.

Record action : Type := {
  payload : option payloadType;
  meta : option metaType;
}.

(** Reading a property of [payload]: raises when [payload] is undefined. *)
Definition the_payload (a : action) : outcome payloadType :=
  match payload a with
  | Some p => Returns p
  | None => Throws
  end.

(** [{...payload.data}]: spreading [undefined] adds nothing.  Spreading an
    array would add its elements, which are not primitives. *)
Definition spread_data (d : dataField) : outcome obj :=
  match d with
  | DataUndefined => Returns ∅
  | DataObject o => Returns o
  | DataArray _ => Unmodelled
  end.

(** [payload.data[k]] *)
Definition read_data (d : dataField) (k : string) : outcome value :=
  match d with
  | DataUndefined => Throws
  | DataObject o => Returns (read o k)
  | DataArray _ => Unmodelled
  end.

(** A field name used as a key: [undefined] indexes as ["undefined"]. *)
Definition field_key (f : option string) : string := default "undefined" f.

(** A field name is truthy when it is a non-empty string. *)
Definition truthy (f : option string) : bool :=
  match f with
  | Some s => bool_decide (s ≠ "")
  | None => false
  end.

(** [{ ...previousState[id], ...payload.data }] *)
Definition updatedRecordOf (previousState : RecordSetWithDate) (target : value)
    (d : dataField) : outcome obj :=
  fields ← spread_data d;
  Returns (fields ∪ default ∅ (prop previousState (key_of target))).

(** The predicate of the [filter] of the move. *)
Definition isNextSibling (previousState : RecordSetWithDate) (m : metaType)
    (d : dataField) (k : string) : outcome bool :=
  match prop previousState k with
  | None => Throws
  | Some r =>
      parent ← read_data d (field_key (parentSource m));
      if strict_eq (read r (field_key (parentSource m))) parent then
        position ← read_data d (field_key (positionSource m));
        match js_ge (read r (field_key (positionSource m))) position with
        | Some b => Returns b
        | None => Unmodelled
        end
      else Returns false
  end.

(** The function of the [map] of the move. *)
Definition shifted (previousState : RecordSetWithDate) (m : metaType)
    (k : string) : obj :=
  let r := default ∅ (prop previousState k) in
  <[field_key (positionSource m) := js_add1 (read r (field_key (positionSource m)))]> r.

Definition nextSiblingsOf (previousState : RecordSetWithDate) (m : metaType)
    (d : dataField) : outcome (list obj) :=
  if truthy (positionSource m) then
    ks ← filterM (isNextSibling previousState m d) (ownKeys (entries previousState));
    Returns (shifted previousState m <$> (ks : list string))
  else Returns [].

(** [payload.ids.map(f)] *)
Fixpoint mapOutcome {A B} (f : A → outcome B) (l : list A) : outcome (list B) :=
  match l with
  | [] => Returns []
  | x :: l' => y ← f x; r ← mapOutcome f l'; Returns (y :: r)
  end.

(** The first [if] of [dataReducer]; [None] when control falls through
    to the second.  [removeRecords] takes its default [[]] when
    [payload.ids] is undefined. *)
Definition optimisticBranch (now : Z) (previousState : RecordSetWithDate)
    (a : action) : option (outcome RecordSetWithDate) :=
  match meta a with
  | None => None
  | Some m =>
      if optimistic m then
        match fetch m with
        | Some UPDATE | Some MOVE_NODE =>
            Some (p ← the_payload a;
                  updatedRecord ← updatedRecordOf previousState (id p) (data p);
                  nextSiblings ← nextSiblingsOf previousState m (data p);
                  Returns (addRecords now (updatedRecord :: nextSiblings) previousState))
        | Some UPDATE_MANY =>
            Some (p ← the_payload a;
                  targets ← match ids p with Some l => Returns l | None => Throws end;
                  updatedRecords ←
                    mapOutcome (λ t, updatedRecordOf previousState t (data p)) targets;
                  Returns (addRecords now updatedRecords previousState))
        | Some DELETE =>
            Some (p ← the_payload a; removeRecords [id p] previousState)
        | Some DELETE_MANY =>
            Some (p ← the_payload a;
                  removeRecords (default [] (ids p)) previousState)
        | _ => None
        end
      else None
  end.

(** The rest of [dataReducer]: the settled fetch responses.
    [addRecords] takes its default [[]] when [payload.data] is undefined,
    and raises when it is given an object that is not an array. *)
Definition settledBranch (now : Z) (previousState : RecordSetWithDate)
    (a : action) : outcome RecordSetWithDate :=
  match meta a with
  | None => Returns previousState
  | Some m =>
      match fetchResponse m, fetchStatus m with
      | Some response, Some FETCH_END =>
          match response with
          | GET_TREE_ROOT_NODES | GET_TREE_CHILDREN_NODES
          | GET_LIST | GET_MANY | GET_MANY_REFERENCE =>
              p ← the_payload a;
              match data p with
              | DataUndefined => Returns (addRecords now [] previousState)
              | DataArray rs => Returns (addRecords now rs previousState)
              | DataObject _ => Throws
              end
          | GET_ONE | UPDATE | CREATE =>
              p ← the_payload a;
              match data p with
              | DataObject r => Returns (addRecords now [r] previousState)
              | DataUndefined => Throws
              | DataArray _ => Unmodelled
              end
          | _ => Returns previousState
          end
      | _, _ => Returns previousState
      end
  end.

(** [now] is the reading of the clock during the call.  The default of
    [previousState] is [initialState]. *)
Definition dataReducer (now : Z) (previousState : RecordSetWithDate)
    (a : action) : outcome RecordSetWithDate :=
  match optimisticBranch now previousState a with
  | Some result => result
  | None => settledBranch now previousState a
  end.

End Reducer.

(** ** Decimal keys *)

(** A decimal digit. *)
Definition is_digit (c : ascii) : bool :=
  match c with
  | "0" | "1" | "2" | "3" | "4" | "5" | "6" | "7" | "8" | "9" => true
  | _ => false
  end%char.

Fixpoint digits (s : string) : bool :=
  match s with
  | EmptyString => true
  | String c s' => is_digit c && digits s'
  end.

(** ** Pools as the source describes them *)

(** "A list of records indexed by id": every enumerable property holds a
    record, under the key its [id] converts to; [fetchedAt] is not among
    them. *)
Definition indexed_by_id (st : RecordSetWithDate) : Prop :=
  ∀ k s, entries st !! k = Some s →
    k ≠ "fetchedAt" ∧ ∃ r, s = Some r ∧ key_of (read r "id") = k.

(** The values of a metadata map are instants. *)
Definition timestamps (dates : obj) : Prop :=
  ∀ k v, dates !! k = Some v → ∃ t, v = VNum t.

(** The invariants of the data model: the records and the metadata map
    have the same identifiers. *)
Definition pool_ok (st : RecordSetWithDate) : Prop :=
  ∃ dates, fetchedAt st = Some dates
    ∧ dom dates = dom (entries st)
    ∧ timestamps dates
    ∧ indexed_by_id st.

(** The records an event carries in [payload.data]. *)
Definition data_records (d : dataField) : list obj :=
  match d with
  | DataUndefined => []
  | DataObject o => [o]
  | DataArray rs => rs
  end.

(** No record carried by the event has the identifier ["fetchedAt"],
    the name of the metadata property. *)
Definition avoids_reserved (a : action) : Prop :=
  ∀ p, payload a = Some p →
    Forall (λ r : obj, r !! "id" ≠ Some (VStr "fetchedAt")) (data_records (data p)).

Section Reachability.
Context `{OwnKeys}.

(** The pools reached from the initial pool by calls of the reducer that
    return, on events that satisfy [allowed]. *)
Inductive reachable_by (allowed : action → Prop) : RecordSetWithDate → Prop :=
  | reach_initial : reachable_by allowed initialState
  | reach_reduce (now : Z) (st : RecordSetWithDate) (a : action) (st' : RecordSetWithDate) :
      reachable_by allowed st →
      allowed a →
      dataReducer now st a = Returns st' →
      reachable_by allowed st'.

Definition reachable : RecordSetWithDate → Prop := reachable_by (λ _, True).

End Reachability.

(** ** Concrete events and pools *)

(** The [meta] of an optimistic mutation. *)
Definition optimisticMeta (kind : fetchType) (parent position : option string) : metaType :=
  {| optimistic := true; fetch := Some kind;
     parentSource := parent; positionSource := position;
     fetchResponse := None; fetchStatus := None |}.

(** The [meta] of a settled fetch response. *)
Definition settledMeta (kind : fetchType) : metaType :=
  {| optimistic := false; fetch := None;
     parentSource := None; positionSource := None;
     fetchResponse := Some kind; fetchStatus := Some FETCH_END |}.

(** A fetched record arrives: [GET_ONE] settles with [r]. *)
Definition fetched (r : obj) : action :=
  {| payload := Some {| id := read r "id"; ids := None; data := DataObject r |};
     meta := Some (settledMeta GET_ONE) |}.

(** An optimistic [DELETE] of [target], and a [DELETE_MANY] of [targets]. *)
Definition optimisticDelete (target : value) : action :=
  {| payload := Some {| id := target; ids := None; data := DataUndefined |};
     meta := Some (optimisticMeta DELETE None None) |}.

Definition optimisticDeleteMany (targets : list value) : action :=
  {| payload := Some {| id := VUndef; ids := Some targets; data := DataUndefined |};
     meta := Some (optimisticMeta DELETE_MANY None None) |}.

(** An optimistic [UPDATE] of [target] with the partial data [d]. *)
Definition optimisticUpdate (target : value) (d : obj) : action :=
  {| payload := Some {| id := target; ids := None; data := DataObject d |};
     meta := Some (optimisticMeta UPDATE None None) |}.

(** An optimistic [MOVE_NODE] of [target] with the partial data [d], the
    parent kept in the field [parent] and the position in [position]. *)
Definition optimisticMove (target : value) (d : obj) (parent position : string) : action :=
  {| payload := Some {| id := target; ids := None; data := DataObject d |};
     meta := Some (optimisticMeta MOVE_NODE (Some parent) (Some position)) |}.

(** [state.fetchedAt[k]] *)
Definition fetchedAtOf (state : RecordSetWithDate) (k : string) : option value :=
  dates ← fetchedAt state; dates !! k.

(** The mutation kinds the first [if] of the reducer handles. *)
Definition isMutation (kind : fetchType) : bool :=
  match kind with
  | UPDATE | MOVE_NODE | UPDATE_MANY | DELETE | DELETE_MANY => true
  | _ => false
  end.

(** The response kinds the [switch] of the reducer handles. *)
Definition isResponse (kind : fetchType) : bool :=
  match kind with
  | GET_TREE_ROOT_NODES | GET_TREE_CHILDREN_NODES
  | GET_LIST | GET_MANY | GET_MANY_REFERENCE
  | GET_ONE | UPDATE | CREATE => true
  | _ => false
  end.

(** The event is an optimistic mutation of a recognized kind. *)
Definition mutates (m : metaType) : bool :=
  optimistic m && from_option isMutation false (fetch m).

(** The event is a completed fetch with a recognized response kind. *)
Definition settles (m : metaType) : bool :=
  match fetchResponse m, fetchStatus m with
  | Some kind, Some FETCH_END => isResponse kind
  | _, _ => false
  end.

(** The response kinds that carry an array of records, and those that
    carry one record. *)
Definition isBulk (kind : fetchType) : bool :=
  match kind with
  | GET_TREE_ROOT_NODES | GET_TREE_CHILDREN_NODES
  | GET_LIST | GET_MANY | GET_MANY_REFERENCE => true
  | _ => false
  end.

Definition isSingular (kind : fetchType) : bool :=
  match kind with
  | GET_ONE | UPDATE | CREATE => true
  | _ => false
  end.

Module Examples.

(** The pool of the comment in the source, with one record. *)
Definition hello : obj := {[ "id" := VNum 12; "title" := VStr "hello" ]}.
Definition hello_pool : RecordSetWithDate := addRecords 1549488187049 [hello] initialState.

(** A record whose identifier is the name of the metadata property. *)
Definition clash : obj := {[ "id" := VStr "fetchedAt" ]}.
Definition clash_pool : RecordSetWithDate := addRecords 0 [clash] initialState.

(** The same record, fetched again with another title. *)
Definition world : obj := {[ "id" := VNum 12; "title" := VStr "world" ]}.

(** An optimistic event of a kind the reducer does not know, which also
    carries the marks of a completed [GET_ONE]. *)
Definition archive : action :=
  {| payload := Some {| id := VNum 12; ids := None; data := DataObject hello |};
     meta := Some {| optimistic := true; fetch := Some (OTHER "ARCHIVE");
                     parentSource := None; positionSource := None;
                     fetchResponse := Some GET_ONE; fetchStatus := Some FETCH_END |} |}.

(** A [GET_LIST] settles with the records [rs]. *)
Definition listed (rs : list obj) : action :=
  {| payload := Some {| id := VUndef; ids := None; data := DataArray rs |};
     meta := Some (settledMeta GET_LIST) |}.

(** Four nodes of a tree: A, B and C under the parent 10 at the positions
    0, 1 and 2, and E under the parent 20. *)
Definition node (i parent position : Z) : obj :=
  {[ "id" := VNum i; "parent_id" := VNum parent; "position" := VNum position ]}.
Definition nodeA : obj := node 1 10 0.
Definition nodeB : obj := node 2 10 1.
Definition nodeC : obj := node 3 10 2.
Definition nodeE : obj := node 4 20 1.
Definition tree_pool : RecordSetWithDate :=
  addRecords 100 [nodeA; nodeB; nodeC; nodeE] initialState.

(** A new node D is placed under the parent 10 at the position 1. *)
Definition nodeD : obj := node 5 10 1.
Definition place_D : action := optimisticMove (VNum 5) nodeD "parent_id" "position".

(** B, which is at the position 1 under the parent 10, is moved to the
    position 0 under the same parent. *)
Definition to_front : obj := {[ "parent_id" := VNum 10; "position" := VNum 0 ]}.
Definition move_B : action := optimisticMove (VNum 2) to_front "parent_id" "position".

(** Partial data without an [id], and the pool an optimistic update of the
    absent record 5 with it gives. *)
Definition retitled : obj := {[ "title" := VStr "b" ]}.
Definition stray_pool : RecordSetWithDate := addRecords 0 [retitled] initialState.

(** Partial data that carries the identifier 5. *)
Definition titled : obj := {[ "id" := VNum 5; "title" := VStr "b" ]}.

(** An optimistic event of a kind the reducer does not know. *)
Definition unknown : action :=
  {| payload := None; meta := Some (optimisticMeta (OTHER "ARCHIVE") None None) |}.

End Examples.

Module Cases.




(** Partial data without an [id], for an update of several nodes. *)
Definition checked : obj := {[ "checked" := VBool true ]}.

(** An optimistic update-many of the nodes 1 and 2 of the tree. *)
Definition check_two : action :=
  {| payload := Some {| id := VUndef; ids := Some [VNum 1; VNum 2];
                        data := DataObject checked |};
     meta := Some (optimisticMeta UPDATE_MANY None None) |}.

(** An optimistic move that names its fields and carries no data. *)
Definition bare_move : action :=
  {| payload := Some {| id := VNum 2; ids := None; data := DataUndefined |};
     meta := Some (optimisticMeta MOVE_NODE (Some "parent_id") (Some "position")) |}.

(** An optimistic delete-many without a list of identifiers. *)
Definition delete_none : action :=
  {| payload := Some {| id := VUndef; ids := None; data := DataUndefined |};
     meta := Some (optimisticMeta DELETE_MANY None None) |}.

End Cases.

(* ================================================================== *)
(** * Properties *)

Section Properties.
Context `{OwnKeys}.

(** ** Property keys *)

Lemma pretty_N_char_digit (x : N) : is_digit (pretty_N_char x) = true.
Proof. unfold pretty_N_char. repeat case_match; reflexivity. Qed.

Lemma pretty_N_go_digits (x : N) : ∀ s, digits s = true → digits (pretty_N_go x s) = true.
Proof.
  induction (N.lt_wf_0 x) as [x _ IH]. intros s Hs.
  destruct (decide (x = 0)%N) as [->|Hx]; [by rewrite pretty_N_go_0|].
  rewrite pretty_N_go_step by lia.
  apply IH.
  - apply N.div_lt; lia.
  - simpl. by rewrite pretty_N_char_digit.
Qed.

Lemma pretty_Z_not_reserved (n : Z) : pretty n ≠ "fetchedAt".
Proof.
  destruct n as [|p|p]; [done| |done].
  unfold pretty, pretty_Z, pretty, pretty_positive, pretty, pretty_N.
  rewrite decide_False by done.
  intros Heq. pose proof (pretty_N_go_digits (N.pos p) "" eq_refl) as Hd.
  rewrite Heq in Hd. discriminate.
Qed.

Lemma key_of_reserved (v : value) : key_of v = "fetchedAt" → v = VStr "fetchedAt".
Proof.
  destruct v as [| |[]|n| |s]; simpl; try discriminate.
  - intros Hn. by destruct (pretty_Z_not_reserved n).
  - by intros ->.
Qed.

(** ** Loops that assign properties *)

Lemma lookup_foldl_insert {A B} (f : A → string) (g : A → B) (l : list A)
    (init : gmap string B) (k : string) :
  foldl (λ acc x, <[f x := g x]> acc) init l !! k =
    match last (filter (λ x, f x = k) l) with
    | Some x => Some (g x)
    | None => init !! k
    end.
Proof.
  induction l as [|x l IH] using rev_ind; [done|].
  rewrite foldl_snoc, filter_app, filter_cons, filter_nil.
  destruct (decide (f x = k)) as [<-|Hne].
  - by rewrite last_snoc, lookup_insert_eq.
  - by rewrite app_nil_r, lookup_insert_ne.
Qed.

Lemma lookup_foldl_insert_const {A B} (f : A → string) (v : B) (l : list A)
    (init : gmap string B) (k : string) :
  foldl (λ acc x, <[f x := v]> acc) init l !! k =
    if decide (k ∈ f <$> l) then Some v else init !! k.
Proof.
  revert init. induction l as [|x l IH]; intros init.
  - destruct (decide _) as [Hk|]; [by apply elem_of_nil in Hk|done].
  - rewrite fmap_cons. cbn [foldl]. rewrite IH.
    destruct (decide (k ∈ f <$> l)) as [Hin|Hout].
    + rewrite decide_True; [done|]. by right.
    + destruct (decide (f x = k)) as [<-|Hne].
      * rewrite decide_True by left. apply lookup_insert_eq.
      * rewrite decide_False, lookup_insert_ne; [done..|].
        intros [?|?]%elem_of_cons; [congruence|done].
Qed.

Lemma lookup_foldl_assign {B} (g : string → B) (ks : list string)
    (init : gmap string B) (k : string) :
  foldl (λ acc i, <[i := g i]> acc) init ks !! k =
    if decide (k ∈ ks) then Some (g k) else init !! k.
Proof.
  revert init. induction ks as [|x ks IH]; intros init.
  - destruct (decide _) as [Hk|]; [by apply elem_of_nil in Hk|done].
  - cbn [foldl]. rewrite IH.
    destruct (decide (k ∈ ks)) as [Hin|Hout].
    + rewrite decide_True; [done|]. by right.
    + destruct (decide (x = k)) as [<-|Hne].
      * rewrite decide_True by left. apply lookup_insert_eq.
      * rewrite decide_False, lookup_insert_ne; [done..|].
        intros [?|?]%elem_of_cons; [congruence|done].
Qed.

Lemma indexById_lookup (rs : list obj) (k : string) :
  indexById rs !! k = last (filter (λ r, key_of (read r "id") = k) rs).
Proof.
  unfold indexById.
  rewrite (lookup_foldl_insert (λ r, key_of (read r "id")) (λ r, r)).
  by destruct (last _).
Qed.

Lemma getFetchedAt_lookup (now : Z) (ids : list value) (old : slot) (k : string) :
  getFetchedAt now ids old !! k =
    if decide (k ∈ key_of <$> ids) then Some (VNum now) else default ∅ old !! k.
Proof. apply lookup_foldl_insert_const. Qed.

(** ** What [addRecords] builds *)

Lemma addRecords_entries (now : Z) (rs : list obj) (st : RecordSetWithDate) (k : string) :
  entries (addRecords now rs st) !! k =
    if decide (k = "fetchedAt") then None
    else match getFetchedAt now ((λ r, read r "id") <$> rs) (fetchedAt st) !! k with
         | Some _ => Some (or_slot (indexById rs !! k) (prop st k))
         | None => None
         end.
Proof.
  unfold addRecords, hideFetchedAt; simpl.
  destruct (decide (k = "fetchedAt")) as [->|Hk]; [apply lookup_delete_eq|].
  rewrite lookup_delete_ne by done.
  rewrite (lookup_foldl_assign (λ i, or_slot (indexById rs !! i) (prop st i))).
  destruct (decide (k ∈ _)) as [Hin|Hout].
  - apply ownKeys_elem in Hin as [v ->]. done.
  - rewrite lookup_singleton_ne by done.
    destruct (getFetchedAt _ _ _ !! k) eqn:E; [|done].
    destruct Hout. apply ownKeys_elem. by eexists.
Qed.

Lemma addRecords_fetchedAt (now : Z) (rs : list obj) (st : RecordSetWithDate) :
  fetchedAt (addRecords now rs st) =
    let dates := getFetchedAt now ((λ r, read r "id") <$> rs) (fetchedAt st) in
    match dates !! "fetchedAt" with
    | Some _ => or_slot (indexById rs !! "fetchedAt") (fetchedAt st)
    | None => Some dates
    end.
Proof.
  unfold addRecords, hideFetchedAt; simpl.
  rewrite (lookup_foldl_assign (λ i, or_slot (indexById rs !! i) (prop st i))).
  destruct (decide ("fetchedAt" ∈ _)) as [Hin|Hout].
  - apply ownKeys_elem in Hin as [v ->]. simpl. unfold prop.
    by rewrite decide_True.
  - rewrite lookup_singleton_eq. simpl.
    destruct (getFetchedAt _ _ _ !! "fetchedAt") eqn:E; [|done].
    destruct Hout. apply ownKeys_elem. by eexists.
Qed.

Lemma indexById_Some (rs : list obj) (k : string) (r : obj) :
  indexById rs !! k = Some r → r ∈ rs ∧ key_of (read r "id") = k.
Proof.
  rewrite indexById_lookup. intros Hl.
  apply last_Some_elem_of in Hl. by apply list_elem_of_filter in Hl as [? ?].
Qed.

Lemma indexById_None (rs : list obj) (k : string) :
  indexById rs !! k = None → ∀ r, r ∈ rs → key_of (read r "id") ≠ k.
Proof.
  rewrite indexById_lookup, last_None. intros Hnil r Hr Hk.
  assert (r ∈ filter (λ r, key_of (read r "id") = k) rs) as Hin
    by by apply list_elem_of_filter.
  rewrite Hnil in Hin. by apply elem_of_nil in Hin.
Qed.

Lemma indexById_snoc (rs : list obj) (r : obj) :
  indexById (rs ++ [r]) = <[key_of (read r "id") := r]> (indexById rs).
Proof. unfold indexById. by rewrite foldl_snoc. Qed.

(** The property of the result of [addRecords] under a key other than
    [fetchedAt]. *)
Lemma addRecords_prop (now : Z) (rs : list obj) (st : RecordSetWithDate) (k : string) :
  k ≠ "fetchedAt" →
  prop (addRecords now rs st) k =
    match getFetchedAt now ((λ r, read r "id") <$> rs) (fetchedAt st) !! k with
    | Some _ => or_slot (indexById rs !! k) (prop st k)
    | None => None
    end.
Proof.
  intros Hk. unfold prop at 1. rewrite decide_False by done.
  rewrite addRecords_entries, decide_False by done.
  by destruct (getFetchedAt _ _ _ !! k).
Qed.

(** ** The invariants of the data model are kept *)

Lemma pool_ok_hidden (st : RecordSetWithDate) :
  indexed_by_id st → entries st !! "fetchedAt" = None.
Proof.
  intros Hix. destruct (entries st !! "fetchedAt") eqn:E; [|done].
  by destruct (Hix _ _ E) as [? _].
Qed.

Lemma pool_ok_prop (st : RecordSetWithDate) (dates : obj) (k : string) :
  indexed_by_id st → fetchedAt st = Some dates → dom dates = dom (entries st) →
  is_Some (dates !! k) →
  ∃ r, prop st k = Some r ∧ entries st !! k = Some (Some r) ∧ key_of (read r "id") = k.
Proof.
  intros Hix Hf Hdom Hk. apply elem_of_dom in Hk. rewrite Hdom in Hk.
  apply elem_of_dom in Hk as [s Hs].
  destruct (Hix _ _ Hs) as [Hne (r & -> & Hr)].
  exists r. unfold prop. by rewrite decide_False, Hs.
Qed.

Lemma addRecords_pool_ok (now : Z) (rs : list obj) (st : RecordSetWithDate) :
  pool_ok st →
  Forall (λ r, key_of (read r "id") ≠ "fetchedAt") rs →
  pool_ok (addRecords now rs st).
Proof.
  intros (dates & Hf & Hdom & Hts & Hix) Hrs.
  set (dates' := getFetchedAt now ((λ r, read r "id") <$> rs) (fetchedAt st)).
  assert (∀ k, dates' !! k =
            if decide (k ∈ key_of <$> ((λ r, read r "id") <$> rs))
            then Some (VNum now) else dates !! k) as Hd'.
  { intros k. unfold dates'. by rewrite getFetchedAt_lookup, Hf. }
  assert (dates' !! "fetchedAt" = None) as Hres.
  { rewrite Hd'. rewrite decide_False.
    - apply not_elem_of_dom. rewrite Hdom. apply not_elem_of_dom.
      by apply pool_ok_hidden.
    - rewrite <- list_fmap_compose. intros (r & Hr & Hin)%list_elem_of_fmap.
      rewrite Forall_forall in Hrs. by apply (Hrs r Hin). }
  exists dates'. split; [|split; [|split]].
  - rewrite addRecords_fetchedAt. fold dates'. cbv zeta. by rewrite Hres.
  - apply set_eq. intros k. rewrite !elem_of_dom, addRecords_entries. fold dates'.
    destruct (decide (k = "fetchedAt")) as [->|Hk].
    + rewrite Hres. split; intros [? ?]; done.
    + destruct (dates' !! k); split; intros [? ?]; try done; by eexists.
  - intros k v. rewrite Hd'. case_decide; [|by apply Hts].
    intros [= <-]. by eexists.
  - intros k s. rewrite addRecords_entries. fold dates'.
    destruct (decide (k = "fetchedAt")) as [->|Hk]; [done|].
    destruct (dates' !! k) as [v|] eqn:Ek; [|done]. intros [= <-].
    split; [done|].
    destruct (indexById rs !! k) as [r|] eqn:Er.
    + exists r. split; [done|]. by apply indexById_Some in Er as [_ ?].
    + simpl. rewrite Hd' in Ek. case_decide as Hin.
      * rewrite <- list_fmap_compose in Hin.
        apply list_elem_of_fmap in Hin as (r & Hr & Hin).
        by destruct (indexById_None _ _ Er r Hin).
      * destruct (pool_ok_prop st dates k Hix Hf Hdom) as (r & Hp & _ & Hkey);
          [by eexists|]. by exists r.
Qed.

(** ** What [removeRecords] builds *)

Lemma includes_spec (removed : list value) (k : string) :
  includes removed k = true ↔ VStr k ∈ removed.
Proof.
  unfold includes, same_value_zero. induction removed as [|v l IH]; simpl.
  - split; [done|]. by intros ?%elem_of_nil.
  - rewrite orb_true_iff, IH, bool_decide_eq_true, elem_of_cons.
    split; (intros [Hv|Hl]; [left; by symmetry|by right]).
Qed.

Lemma removeRecords_Returns (removed : list value) (st : RecordSetWithDate) (dates : obj) :
  fetchedAt st = Some dates →
  removeRecords removed st =
    Returns {| fetchedAt := Some (filter (λ kv, ¬ includes removed kv.1) dates);
               entries := delete "fetchedAt"
                            (filter (λ kv, ¬ includes removed kv.1) (entries st)) |}.
Proof.
  intros Hf. unfold removeRecords, hideFetchedAt. rewrite Hf. do 2 f_equal.
  - by rewrite lookup_insert_eq.
  - rewrite delete_insert_eq. apply map_eq. intros k.
    destruct (decide (k = "fetchedAt")) as [->|Hk].
    + by rewrite !lookup_delete_eq.
    + rewrite !lookup_delete_ne by done.
      rewrite lookup_union, lookup_singleton_ne by done.
      by destruct (filter _ _ !! k).
Qed.

Lemma removeRecords_Throws (removed : list value) (st : RecordSetWithDate) :
  fetchedAt st = None → removeRecords removed st = Throws.
Proof. intros Hf. unfold removeRecords. by rewrite Hf. Qed.

Lemma lookup_filter_keys {A} (removed : list value) (m : gmap string A) (k : string) :
  filter (λ kv, ¬ includes removed kv.1) m !! k =
    if includes removed k then None else m !! k.
Proof.
  destruct (includes removed k) eqn:E.
  - apply map_lookup_filter_None. right. intros x _ Hn. apply Hn. simpl. by rewrite E.
  - destruct (m !! k) as [x|] eqn:Ek.
    + apply map_lookup_filter_Some. split; [done|]. simpl. rewrite E. by intros [].
    + apply map_lookup_filter_None. by left.
Qed.

Lemma removeRecords_pool_ok (removed : list value) (st st' : RecordSetWithDate) :
  pool_ok st → removeRecords removed st = Returns st' → pool_ok st'.
Proof.
  intros (dates & Hf & Hdom & Hts & Hix).
  rewrite (removeRecords_Returns _ _ _ Hf). intros [= <-].
  eexists. split; [done|]. simpl. split; [|split].
  - apply set_eq. intros k.
    rewrite !elem_of_dom. destruct (decide (k = "fetchedAt")) as [->|Hk].
    + rewrite lookup_delete_eq, lookup_filter_keys.
      assert (dates !! "fetchedAt" = None) as ->.
      { apply not_elem_of_dom. rewrite Hdom. apply not_elem_of_dom.
        by apply pool_ok_hidden. }
      by destruct (includes _ _).
    + rewrite lookup_delete_ne by done. rewrite !lookup_filter_keys.
      destruct (includes _ _); [done|].
      by rewrite <- !elem_of_dom, Hdom.
  - intros k v. rewrite lookup_filter_keys. destruct (includes _ _); [done|]. apply Hts.
  - intros k s. simpl. destruct (decide (k = "fetchedAt")) as [->|Hk].
    + by rewrite lookup_delete_eq.
    + rewrite lookup_delete_ne by done. rewrite lookup_filter_keys.
      destruct (includes _ _); [done|]. apply Hix.
Qed.

(** ** Loops that may raise *)

Lemma filterM_Returns {A} (p : A → outcome bool) (l r : list A) :
  filterM p l = Returns r → ∀ x, x ∈ r ↔ x ∈ l ∧ p x = Returns true.
Proof.
  revert r. induction l as [|y l IH]; intros r; simpl.
  - intros [= <-] x. split.
    + intros Hx. by apply elem_of_nil in Hx.
    + intros [Hx _]. by apply elem_of_nil in Hx.
  - destruct (p y) as [b| |] eqn:Ey; try done. simpl.
    destruct (filterM p l) as [r'| |]; try done. simpl. intros [= <-] x.
    specialize (IH r' eq_refl x).
    destruct b.
    + rewrite !elem_of_cons, IH. split.
      * intros [->|[? ?]]; [split; [by left|done]|split; [by right|done]].
      * intros [[->|?] ?]; [by left|by right].
    + rewrite elem_of_cons, IH. split.
      * intros [? ?]. split; [by right|done].
      * intros [[->|?] Hp]; [congruence|done].
Qed.

Lemma filterM_total {A} (p : A → outcome bool) (l : list A) :
  Forall (λ x, ∃ b, p x = Returns b) l → ∃ r, filterM p l = Returns r.
Proof.
  induction 1 as [|y l [b Hb] _ [r Hr]]; simpl; [by eexists|].
  rewrite Hb. simpl. rewrite Hr. simpl. by eexists.
Qed.

Lemma filterM_NoDup {A} (p : A → outcome bool) (l r : list A) :
  NoDup l → filterM p l = Returns r → NoDup r.
Proof.
  intros Hl. revert r. induction Hl as [|y l Hy Hl IH]; intros r; simpl.
  - intros [= <-]. constructor.
  - destruct (p y) as [b| |] eqn:Ey; try done. simpl.
    destruct (filterM p l) as [r'| |] eqn:Er; try done. simpl. intros [= <-].
    destruct b; [|by apply IH]. constructor; [|by apply IH].
    intros Hin. apply (filterM_Returns _ _ _ Er) in Hin as [? _]. done.
Qed.

Lemma mapOutcome_Returns {A B} (f : A → outcome B) (l : list A) (r : list B) :
  mapOutcome f l = Returns r → Forall2 (λ x y, f x = Returns y) l r.
Proof.
  revert r. induction l as [|x l IH]; intros r; simpl.
  - intros [= <-]. constructor.
  - destruct (f x) as [y| |] eqn:Ex; try done. simpl.
    destruct (mapOutcome f l) as [r'| |]; try done. simpl. intros [= <-].
    constructor; [done|]. by apply IH.
Qed.

Lemma mapOutcome_total {A B} (f : A → outcome B) (g : A → B) (l : list A) :
  (∀ x, f x = Returns (g x)) → mapOutcome f l = Returns (g <$> l).
Proof.
  intros Hf. induction l as [|x l IH]; simpl; [done|].
  rewrite Hf. simpl. rewrite IH. done.
Qed.

(** ** The records an optimistic update merges *)

Lemma append_1_not_reserved (s : string) : s +:+ "1" ≠ "fetchedAt".
Proof.
  intros Heq.
  repeat (destruct s as [|? s]; simpl in Heq;
          [discriminate Heq|injection Heq as _ Heq]).
  destruct s; simpl in Heq; discriminate Heq.
Qed.

Lemma js_add1_not_reserved (v : value) : key_of (js_add1 v) ≠ "fetchedAt".
Proof.
  intros Hk. apply key_of_reserved in Hk.
  destruct v as [| |b|n| |s]; simpl in Hk; try discriminate.
  injection Hk as Hk. by apply append_1_not_reserved in Hk.
Qed.

Lemma read_insert_eq (o : obj) (k : string) (v : value) : read (<[k := v]> o) k = v.
Proof. unfold read. by rewrite lookup_insert_eq. Qed.

Lemma read_insert_ne (o : obj) (k j : string) (v : value) :
  k ≠ j → read (<[k := v]> o) j = read o j.
Proof. intros Hne. unfold read. by rewrite lookup_insert_ne. Qed.

Lemma read_union (fields prev : obj) (k : string) :
  read (fields ∪ prev) k =
    match fields !! k with
    | Some v => v
    | None => read prev k
    end.
Proof.
  unfold read. rewrite lookup_union.
  by destruct (fields !! k), (prev !! k).
Qed.

Lemma updatedRecordOf_Returns (st : RecordSetWithDate) (t : value) (d : dataField) (u : obj) :
  updatedRecordOf st t d = Returns u →
  ∃ fields, spread_data d = Returns fields
            ∧ u = fields ∪ default ∅ (prop st (key_of t)).
Proof.
  unfold updatedRecordOf. destruct (spread_data d) as [fields| |]; try done.
  simpl. intros [= <-]. by exists fields.
Qed.

Lemma pool_ok_previous_key (st : RecordSetWithDate) (k : string) :
  pool_ok st → key_of (read (default ∅ (prop st k)) "id") ≠ "fetchedAt".
Proof.
  intros (dates & Hf & Hdom & Hts & Hix) Hk. apply key_of_reserved in Hk.
  unfold prop in Hk. destruct (decide (k = "fetchedAt")) as [->|Hne].
  - rewrite Hf in Hk. simpl in Hk. unfold read in Hk.
    destruct (dates !! "id") as [v|] eqn:E; [|done].
    destruct (Hts _ _ E) as [t ->]. done.
  - destruct (entries st !! k) as [s|] eqn:E; [|done].
    destruct (Hix _ _ E) as [_ (r & -> & Hr)]. simpl in Hk.
    rewrite Hk in Hr. simpl in Hr. congruence.
Qed.

Lemma updatedRecordOf_key (st : RecordSetWithDate) (t : value) (d : dataField) (u : obj) :
  pool_ok st →
  Forall (λ r : obj, r !! "id" ≠ Some (VStr "fetchedAt")) (data_records d) →
  updatedRecordOf st t d = Returns u →
  key_of (read u "id") ≠ "fetchedAt".
Proof.
  intros Hok Hd (fields & Hs & ->)%updatedRecordOf_Returns.
  rewrite read_union. destruct (fields !! "id") as [v|] eqn:E.
  - intros ->%key_of_reserved. destruct d as [|o|rs]; simplify_eq/=.
    apply Forall_inv in Hd. by apply Hd.
  - by apply pool_ok_previous_key.
Qed.

Lemma shifted_key (st : RecordSetWithDate) (m : metaType) (k : string) :
  pool_ok st → is_Some (entries st !! k) →
  key_of (read (shifted st m k) "id") ≠ "fetchedAt".
Proof.
  intros Hok _. unfold shifted.
  destruct (decide (field_key (positionSource m) = "id")) as [->|Hne].
  - rewrite read_insert_eq. apply js_add1_not_reserved.
  - rewrite read_insert_ne by done. by apply pool_ok_previous_key.
Qed.

Lemma nextSiblingsOf_Returns (st : RecordSetWithDate) (m : metaType) (d : dataField)
    (siblings : list obj) :
  nextSiblingsOf st m d = Returns siblings →
  (truthy (positionSource m) = false ∧ siblings = [])
  ∨ (truthy (positionSource m) = true
     ∧ ∃ ks, filterM (isNextSibling st m d) (ownKeys (entries st)) = Returns ks
             ∧ siblings = shifted st m <$> ks).
Proof.
  unfold nextSiblingsOf. destruct (truthy _).
  - destruct (filterM _ _) as [ks| |]; try done. simpl. intros [= <-].
    right. split; [done|]. by exists ks.
  - intros [= <-]. by left.
Qed.

(** ** Every step of the reducer keeps the invariants *)

Lemma record_key_ok (r : obj) :
  r !! "id" ≠ Some (VStr "fetchedAt") → key_of (read r "id") ≠ "fetchedAt".
Proof.
  intros Hr Hk%key_of_reserved. apply Hr. unfold read in Hk.
  destruct (r !! "id"); simplify_eq/=; done.
Qed.

Lemma dataReducer_pool_ok (now : Z) (st st' : RecordSetWithDate) (a : action) :
  pool_ok st → avoids_reserved a →
  dataReducer now st a = Returns st' → pool_ok st'.
Proof.
  intros Hok Hav. unfold dataReducer, optimisticBranch, settledBranch, the_payload.
  destruct (meta a) as [m|]; [|by intros [= <-]].
  assert (∀ p, payload a = Some p →
    match data p with
    | DataArray rs => Returns (addRecords now rs st)
    | DataUndefined => Returns (addRecords now [] st)
    | DataObject _ => Throws
    end = Returns st' → pool_ok st') as Hbulk.
  { intros p Hp. specialize (Hav p Hp). destruct (data p) as [|o|rs]; try done.
    - intros [= <-]. by apply addRecords_pool_ok.
    - intros [= <-]. apply addRecords_pool_ok; [done|].
      eapply Forall_impl; [exact Hav|]. apply record_key_ok. }
  assert (∀ p, payload a = Some p →
    match data p with
    | DataObject r => Returns (addRecords now [r] st)
    | DataUndefined => Throws
    | DataArray _ => Unmodelled
    end = Returns st' → pool_ok st') as Hone.
  { intros p Hp. specialize (Hav p Hp). destruct (data p) as [|o|rs]; try done.
    intros [= <-]. apply addRecords_pool_ok; [done|].
    eapply Forall_impl; [exact Hav|]. apply record_key_ok. }
  assert (match fetchResponse m, fetchStatus m with
    | Some response, Some FETCH_END =>
        match response with
        | GET_TREE_ROOT_NODES | GET_TREE_CHILDREN_NODES
        | GET_LIST | GET_MANY | GET_MANY_REFERENCE =>
            p ← match payload a with Some p => Returns p | None => Throws end;
            match data p with
            | DataUndefined => Returns (addRecords now [] st)
            | DataArray rs => Returns (addRecords now rs st)
            | DataObject _ => Throws
            end
        | GET_ONE | UPDATE | CREATE =>
            p ← match payload a with Some p => Returns p | None => Throws end;
            match data p with
            | DataObject r => Returns (addRecords now [r] st)
            | DataUndefined => Throws
            | DataArray _ => Unmodelled
            end
        | _ => Returns st
        end
    | _, _ => Returns st
    end = Returns st' → pool_ok st') as Hsettled.
  { destruct (fetchResponse m) as [resp|]; [|by intros [= <-]].
    destruct (fetchStatus m) as [[]|]; try by intros [= <-].
    destruct resp; try (by intros [= <-]);
      (destruct (payload a) as [p|] eqn:Hp; [|done]); simpl;
      first [by apply Hbulk | by apply Hone]. }
  destruct (optimistic m); [|exact Hsettled].
  destruct (fetch m) as [[]|]; try exact Hsettled.
  - (* UPDATE *)
    destruct (payload a) as [p|] eqn:Hp; [|done]. simpl.
    destruct (updatedRecordOf st (id p) (data p)) as [u| |] eqn:Hu; try done. simpl.
    destruct (nextSiblingsOf st m (data p)) as [sib| |] eqn:Hs; try done. simpl.
    intros [= <-]. apply addRecords_pool_ok; [done|]. constructor.
    + eapply updatedRecordOf_key; eauto.
    + apply nextSiblingsOf_Returns in Hs as [[_ ->]|[_ (ks & Hks & ->)]]; [constructor|].
      apply Forall_fmap, Forall_forall. intros k Hk. simpl.
      apply (filterM_Returns _ _ _ Hks) in Hk as [Hk _].
      apply shifted_key; [done|]. by apply ownKeys_elem.
  - (* UPDATE_MANY *)
    destruct (payload a) as [p|] eqn:Hp; [|done]. simpl.
    destruct (ids p) as [targets|]; [|done]. simpl.
    destruct (mapOutcome _ targets) as [us| |] eqn:Hus; try done. simpl.
    intros [= <-]. apply addRecords_pool_ok; [done|].
    apply mapOutcome_Returns in Hus.
    clear Hbulk Hone Hsettled.
    induction Hus as [|t u ts us Hu _ IH]; [constructor|].
    constructor; [|done]. eapply updatedRecordOf_key; eauto.
  - (* DELETE *)
    destruct (payload a) as [p|]; [|done]. simpl.
    intros Hr. eapply removeRecords_pool_ok; eauto.
  - (* DELETE_MANY *)
    destruct (payload a) as [p|]; [|done]. simpl.
    intros Hr. eapply removeRecords_pool_ok; eauto.
  - (* MOVE_NODE *)
    destruct (payload a) as [p|] eqn:Hp; [|done]. simpl.
    destruct (updatedRecordOf st (id p) (data p)) as [u| |] eqn:Hu; try done. simpl.
    destruct (nextSiblingsOf st m (data p)) as [sib| |] eqn:Hs; try done. simpl.
    intros [= <-]. apply addRecords_pool_ok; [done|]. constructor.
    + eapply updatedRecordOf_key; eauto.
    + apply nextSiblingsOf_Returns in Hs as [[_ ->]|[_ (ks & Hks & ->)]]; [constructor|].
      apply Forall_fmap, Forall_forall. intros k Hk. simpl.
      apply (filterM_Returns _ _ _ Hks) in Hk as [Hk _].
      apply shifted_key; [done|]. by apply ownKeys_elem.
Qed.

Lemma initialState_pool_ok : pool_ok initialState.
Proof.
  exists ∅. split; [done|]. split; [|split].
  - apply set_eq. intros k. rewrite !elem_of_dom. unfold initialState, hideFetchedAt; simpl.
    rewrite delete_singleton_eq, !lookup_empty. done.
  - intros k v. by rewrite lookup_empty.
  - intros k s. unfold initialState, hideFetchedAt; simpl.
    by rewrite delete_singleton_eq, lookup_empty.
Qed.

(** ** The shape of a step *)

Lemma dataReducer_shape (now : Z) (st st' : RecordSetWithDate) (a : action) :
  dataReducer now st a = Returns st' →
  st' = st
  ∨ (∃ rs, st' = addRecords now rs st)
  ∨ (∃ removed, removeRecords removed st = Returns st').
Proof.
  unfold dataReducer, optimisticBranch, settledBranch, the_payload.
  destruct (meta a) as [m|]; [|intros [= <-]; by left].
  assert (match fetchResponse m, fetchStatus m with
    | Some response, Some FETCH_END =>
        match response with
        | GET_TREE_ROOT_NODES | GET_TREE_CHILDREN_NODES
        | GET_LIST | GET_MANY | GET_MANY_REFERENCE =>
            p ← match payload a with Some p => Returns p | None => Throws end;
            match data p with
            | DataUndefined => Returns (addRecords now [] st)
            | DataArray rs => Returns (addRecords now rs st)
            | DataObject _ => Throws
            end
        | GET_ONE | UPDATE | CREATE =>
            p ← match payload a with Some p => Returns p | None => Throws end;
            match data p with
            | DataObject r => Returns (addRecords now [r] st)
            | DataUndefined => Throws
            | DataArray _ => Unmodelled
            end
        | _ => Returns st
        end
    | _, _ => Returns st
    end = Returns st' →
    st' = st ∨ (∃ rs, st' = addRecords now rs st)
    ∨ (∃ removed, removeRecords removed st = Returns st')) as Hsettled.
  { destruct (fetchResponse m) as [resp|]; [|intros [= <-]; by left].
    destruct (fetchStatus m) as [[]|]; try (intros [= <-]; by left).
    destruct resp; try (intros [= <-]; by left);
      (destruct (payload a) as [p|]; [|done]); simpl;
      destruct (data p); try done; intros [= <-]; right; left; by eexists. }
  destruct (optimistic m); [|exact Hsettled].
  destruct (fetch m) as [[]|]; try exact Hsettled;
    (destruct (payload a) as [p|]; [|done]); simpl.
  - destruct (updatedRecordOf _ _ _); try done. simpl.
    destruct (nextSiblingsOf _ _ _); try done. simpl.
    intros [= <-]. right; left; by eexists.
  - destruct (ids p); [|done]. simpl.
    destruct (mapOutcome _ _); try done. simpl.
    intros [= <-]. right; left; by eexists.
  - intros Hr. right; right; by eexists.
  - intros Hr. right; right; by eexists.
  - destruct (updatedRecordOf _ _ _); try done. simpl.
    destruct (nextSiblingsOf _ _ _); try done. simpl.
    intros [= <-]. right; left; by eexists.
Qed.

(** ** The metadata property of a reachable pool *)

Lemma dataReducer_hidden (now : Z) (st st' : RecordSetWithDate) (a : action) :
  is_Some (fetchedAt st) ∧ entries st !! "fetchedAt" = None →
  dataReducer now st a = Returns st' →
  is_Some (fetchedAt st') ∧ entries st' !! "fetchedAt" = None.
Proof.
  intros [[dates Hf] He] [->|[[rs ->]|[removed Hr]]]%dataReducer_shape; [done|..].
  - split.
    + rewrite addRecords_fetchedAt. cbv zeta. rewrite Hf.
      destruct (getFetchedAt _ _ _ !! "fetchedAt"); [|done].
      by destruct (indexById rs !! "fetchedAt").
    + by rewrite addRecords_entries, decide_True.
  - rewrite (removeRecords_Returns _ _ _ Hf) in Hr. injection Hr as <-. simpl.
    split; [done|]. apply lookup_delete_eq.
Qed.

(** C10.  For every pool reachable from the initial pool by calls of the
    reducer, [getRecord] at the identifier ["fetchedAt"] is not
    [undefined]: it returns the object held by the metadata property of
    the pool, although that property is not among the keys the pool
    enumerates. *)
Theorem getRecord_fetchedAt_is_metadata (st : RecordSetWithDate) :
  reachable st →
  ∃ dates, getRecord st (VStr "fetchedAt") = Some dates
           ∧ fetchedAt st = Some dates
           ∧ "fetchedAt" ∉ ownKeys (entries st).
Proof.
  intros Hreach.
  assert (is_Some (fetchedAt st) ∧ entries st !! "fetchedAt" = None) as [[dates Hf] He].
  { induction Hreach as [|now st a st' _ IH _ Hstep].
    - split; [by eexists|]. unfold initialState, hideFetchedAt; simpl.
      apply lookup_delete_eq.
    - by eapply dataReducer_hidden. }
  exists dates. split; [|split]; [| done |].
  - unfold getRecord, prop, key_of. by rewrite decide_True.
  - rewrite ownKeys_elem, He. by intros [? ?].
Qed.

(** C1, as amended.  For every pool reachable from the initial pool by
    calls of the reducer on events none of whose records has the
    identifier ["fetchedAt"], the set of the identifiers of the records of
    the pool equals the set of the identifiers of its metadata map. *)
Theorem key_sets_agree (st : RecordSetWithDate) :
  reachable_by avoids_reserved st →
  ∃ dates, fetchedAt st = Some dates ∧ dom (entries st) = dom dates.
Proof.
  intros Hreach.
  assert (pool_ok st) as (dates & Hf & Hdom & _).
  { induction Hreach as [|now st a st' _ IH Hav Hstep].
    - apply initialState_pool_ok.
    - by eapply dataReducer_pool_ok. }
  by exists dates.
Qed.

Lemma reachable_pool_ok (st : RecordSetWithDate) :
  reachable_by avoids_reserved st → pool_ok st.
Proof.
  induction 1 as [|now st a st' _ IH Hav Hstep].
  - apply initialState_pool_ok.
  - by eapply dataReducer_pool_ok.
Qed.

(** ** Eviction *)

Lemma includes_numbers (removed : list value) (k : string) :
  Forall (λ v, ∃ n, v = VNum n) removed → includes removed k = false.
Proof.
  intros Hnum. apply not_true_is_false. rewrite includes_spec. intros Hin.
  rewrite Forall_forall in Hnum. by destruct (Hnum _ Hin).
Qed.

Lemma removeRecords_numbers (removed : list value) (st : RecordSetWithDate) :
  pool_ok st → Forall (λ v, ∃ n, v = VNum n) removed →
  removeRecords removed st = Returns st.
Proof.
  intros (dates & Hf & _ & _ & Hix) Hnum.
  rewrite (removeRecords_Returns _ _ _ Hf). f_equal.
  destruct st as [f e]; simpl in *. subst f. f_equal.
  - f_equal. apply map_filter_id. intros k v _. simpl.
    rewrite (includes_numbers _ _ Hnum). by intros [].
  - rewrite map_filter_id.
    + apply delete_id. by apply (pool_ok_hidden {| fetchedAt := Some dates; entries := e |}).
    + intros k v _. simpl. rewrite (includes_numbers _ _ Hnum). by intros [].
Qed.

(** C3, on the code.  An optimistic delete (or delete-many) whose
    identifiers are numbers removes nothing: the reducer returns the pool
    it was given, because the keys of the pool are strings and
    [includes] compares them to the numbers without conversion. *)
Theorem optimistic_delete_keeps_numeric_ids (now : Z) (st : RecordSetWithDate)
    (n : Z) (targets : list value) :
  pool_ok st →
  Forall (λ v, ∃ n, v = VNum n) targets →
  dataReducer now st (optimisticDelete (VNum n)) = Returns st
  ∧ dataReducer now st (optimisticDeleteMany targets) = Returns st.
Proof.
  intros Hok Hnum. unfold dataReducer. simpl. split.
  - apply removeRecords_numbers; [done|]. constructor; [by eexists|constructor].
  - by apply removeRecords_numbers.
Qed.

(** What eviction does achieve: an identifier given as a string, other
    than the name of the metadata property, leaves both key sets. *)
Lemma optimistic_delete_evicts_string_id (now : Z) (st : RecordSetWithDate)
    (dates : obj) (x : string) :
  fetchedAt st = Some dates → x ≠ "fetchedAt" →
  ∃ st', dataReducer now st (optimisticDelete (VStr x)) = Returns st'
         ∧ getRecord st' (VStr x) = None
         ∧ (x ∉ dom (entries st'))
         ∧ fetchedAtOf st' x = None.
Proof.
  intros Hf Hx. unfold dataReducer. simpl.
  rewrite (removeRecords_Returns _ _ _ Hf). eexists. split; [reflexivity|].
  assert (includes [VStr x] x = true) as Hinc.
  { apply includes_spec. by left. }
  unfold getRecord, prop, fetchedAtOf, key_of.
  cbn [fetchedAt entries mbind option_bind].
  rewrite decide_False by done.
  rewrite not_elem_of_dom, lookup_delete_ne by done.
  rewrite !lookup_filter_keys, Hinc. done.
Qed.

(** ** Merging *)

(** C4.  Merging the empty list of records into a pool that satisfies the
    invariants of the data model returns the same pool: every record and
    every timestamp is unchanged.  (The pool need not be non-empty.) *)
Theorem addRecords_nil (now : Z) (st : RecordSetWithDate) :
  pool_ok st → addRecords now [] st = st.
Proof.
  intros (dates & Hf & Hdom & _ & Hix).
  assert (getFetchedAt now ((λ r : obj, read r "id") <$> []) (fetchedAt st) = dates) as Hd.
  { by rewrite Hf. }
  assert (dates !! "fetchedAt" = None) as Hres.
  { apply not_elem_of_dom. rewrite Hdom. apply not_elem_of_dom. by apply pool_ok_hidden. }
  pose proof (addRecords_fetchedAt now [] st) as Hf'. cbv zeta in Hf'.
  rewrite Hd, Hres in Hf'.
  assert (entries (addRecords now [] st) = entries st) as He'.
  { apply map_eq. intros k. rewrite addRecords_entries, Hd.
    destruct (decide (k = "fetchedAt")) as [->|Hk]; [by rewrite pool_ok_hidden|].
    destruct (dates !! k) as [t|] eqn:Et.
    - destruct (pool_ok_prop st dates k Hix Hf Hdom) as (r & Hp & -> & _); [by eexists|].
      by rewrite Hp.
    - symmetry. apply not_elem_of_dom. rewrite <- Hdom. by apply not_elem_of_dom. }
  destruct (addRecords now [] st) as [f e], st as [f0 e0]; simpl in *. congruence.
Qed.

Lemma addRecords_new (now : Z) (rs : list obj) (st : RecordSetWithDate)
    (k : string) (r : obj) :
  indexById rs !! k = Some r → prop (addRecords now rs st) k = Some r.
Proof.
  intros Hr.
  assert (is_Some (getFetchedAt now ((λ r, read r "id") <$> rs) (fetchedAt st) !! k)) as [t Ht].
  { rewrite getFetchedAt_lookup, decide_True; [by eexists|].
    apply indexById_Some in Hr as [Hin <-]. rewrite <- list_fmap_compose.
    apply list_elem_of_fmap. by exists r. }
  destruct (decide (k = "fetchedAt")) as [->|Hk].
  - unfold prop. rewrite decide_True by done.
    rewrite addRecords_fetchedAt. cbv zeta. by rewrite Ht, Hr.
  - rewrite addRecords_prop by done. by rewrite Ht, Hr.
Qed.

Lemma addRecords_fetchedAt_ok (now : Z) (rs : list obj) (st : RecordSetWithDate) :
  pool_ok st →
  Forall (λ r, key_of (read r "id") ≠ "fetchedAt") rs →
  fetchedAt (addRecords now rs st) =
    Some (getFetchedAt now ((λ r, read r "id") <$> rs) (fetchedAt st)).
Proof.
  intros (dates & Hf & Hdom & _ & Hix) Hrs.
  rewrite addRecords_fetchedAt. cbv zeta.
  rewrite getFetchedAt_lookup, decide_False, Hf.
  - simpl. assert (dates !! "fetchedAt" = None) as ->; [|done].
    apply not_elem_of_dom. rewrite Hdom. apply not_elem_of_dom. by apply pool_ok_hidden.
  - rewrite <- list_fmap_compose. intros (r & Hr & Hin)%list_elem_of_fmap.
    rewrite Forall_forall in Hrs. by apply (Hrs r Hin).
Qed.

(** C5, as amended.  Merging a record whose identifier is already in the
    pool replaces the record, and the timestamp of the identifier becomes
    the reading of the clock at the merge.  It is therefore later than
    the previous timestamp exactly when the clock has advanced past it. *)
Theorem addRecords_refresh (now : Z) (st : RecordSetWithDate) (r : obj) :
  pool_ok st →
  is_Some (entries st !! key_of (read r "id")) →
  getRecord (addRecords now [r] st) (read r "id") = Some r
  ∧ fetchedAtOf (addRecords now [r] st) (key_of (read r "id")) = Some (VNum now)
  ∧ ∃ before, fetchedAtOf st (key_of (read r "id")) = Some (VNum before)
              ∧ (before < now ↔ ∃ after,
                   fetchedAtOf (addRecords now [r] st) (key_of (read r "id"))
                     = Some (VNum after) ∧ before < after).
Proof.
  intros Hok [s Hs].
  pose proof Hok as (dates & Hf & Hdom & Hts & Hix).
  destruct (Hix _ _ Hs) as [Hk _].
  assert (fetchedAtOf (addRecords now [r] st) (key_of (read r "id")) = Some (VNum now)) as Hnew.
  { unfold fetchedAtOf. rewrite addRecords_fetchedAt_ok; [|done|by repeat constructor].
    simpl. apply lookup_insert_eq. }
  split; [|split; [done|]].
  - apply addRecords_new. unfold indexById. simpl. apply lookup_insert_eq.
  - assert (is_Some (dates !! key_of (read r "id"))) as [v Hv].
    { apply elem_of_dom. rewrite Hdom. apply elem_of_dom. by eexists. }
    destruct (Hts _ _ Hv) as [before ->]. exists before.
    split; [unfold fetchedAtOf; by rewrite Hf|].
    rewrite Hnew. split.
    + intros Hlt. by exists now.
    + intros (after & [= <-] & Hlt). done.
Qed.

(** ** Events the reducer ignores *)

(** C6, as amended.  The reducer returns the pool it was given for every
    event that is neither an optimistic mutation of a recognized kind nor
    a completed fetch with a recognized response kind; an event without
    [meta] is one of them. *)
Theorem dataReducer_ignores (now : Z) (st : RecordSetWithDate) (a : action) :
  (∀ m, meta a = Some m → mutates m = false ∧ settles m = false) →
  dataReducer now st a = Returns st.
Proof.
  intros Hnoop. unfold dataReducer, optimisticBranch, settledBranch.
  destruct (meta a) as [m|]; [|done].
  destruct (Hnoop m eq_refl) as [Hmut Hset]. unfold mutates, settles in *.
  assert (match fetchResponse m, fetchStatus m with
          | Some response, Some FETCH_END =>
              match response with
              | GET_TREE_ROOT_NODES | GET_TREE_CHILDREN_NODES
              | GET_LIST | GET_MANY | GET_MANY_REFERENCE =>
                  p ← the_payload a;
                  match data p with
                  | DataUndefined => Returns (addRecords now [] st)
                  | DataArray rs => Returns (addRecords now rs st)
                  | DataObject _ => Throws
                  end
              | GET_ONE | UPDATE | CREATE =>
                  p ← the_payload a;
                  match data p with
                  | DataObject r => Returns (addRecords now [r] st)
                  | DataUndefined => Throws
                  | DataArray _ => Unmodelled
                  end
              | _ => Returns st
              end
          | _, _ => Returns st
          end = Returns st) as Hsettled.
  { destruct (fetchResponse m) as [resp|]; [|done].
    destruct (fetchStatus m) as [[]|]; try done.
    by destruct resp. }
  destruct (optimistic m); [|done].
  destruct (fetch m) as [[]|]; simpl in Hmut; done.
Qed.

(** ** Optimistic updates and moves *)

Lemma last_filter_unique {A} (P : A → Prop) `{∀ x, Decision (P x)} (l : list A) (x : A) :
  x ∈ l → P x → (∀ y, y ∈ l → P y → y = x) → last (filter P l) = Some x.
Proof.
  intros Hx HP Huniq. destruct (last (filter P l)) as [y|] eqn:E.
  - apply last_Some_elem_of, list_elem_of_filter in E as [HPy Hy].
    f_equal. by apply Huniq.
  - apply last_None in E.
    assert (x ∈ filter P l) as Hin by by apply list_elem_of_filter.
    rewrite E in Hin. by apply elem_of_nil in Hin.
Qed.

Lemma indexById_cons_later (u : obj) (rs : list obj) (k : string) (r : obj) :
  indexById rs !! k = Some r → indexById (u :: rs) !! k = Some r.
Proof.
  rewrite !indexById_lookup, filter_cons. intros Hr.
  destruct (decide _); [|done]. by rewrite last_cons, Hr.
Qed.

Lemma indexById_cons_first (u : obj) (rs : list obj) :
  indexById rs !! key_of (read u "id") = None →
  indexById (u :: rs) !! key_of (read u "id") = Some u.
Proof.
  rewrite !indexById_lookup, filter_cons. intros Hr.
  rewrite decide_True by done. by rewrite last_cons, Hr.
Qed.

Lemma indexById_cons_other (u : obj) (rs : list obj) (k : string) :
  key_of (read u "id") ≠ k → indexById (u :: rs) !! k = indexById rs !! k.
Proof.
  intros Hne. rewrite !indexById_lookup, filter_cons. by rewrite decide_False.
Qed.

(** A shifted sibling keeps its identifier, unless the position is kept
    in the field [id] itself. *)
Lemma shifted_key_eq (st : RecordSetWithDate) (m : metaType) (k : string) :
  indexed_by_id st → is_Some (entries st !! k) →
  field_key (positionSource m) ≠ "id" →
  key_of (read (shifted st m k) "id") = k.
Proof.
  intros Hix [s Hs] Hpos. destruct (Hix _ _ Hs) as [Hk (r & -> & Hr)].
  unfold shifted, prop. rewrite decide_False by done. rewrite Hs. simpl.
  by rewrite read_insert_ne.
Qed.

Lemma indexById_shifted (st : RecordSetWithDate) (m : metaType) (ks : list string) (k : string) :
  indexed_by_id st → (∀ j, j ∈ ks → is_Some (entries st !! j)) →
  field_key (positionSource m) ≠ "id" →
  indexById (shifted st m <$> ks) !! k =
    if decide (k ∈ ks) then Some (shifted st m k) else None.
Proof.
  intros Hix Hks Hpos. destruct (decide (k ∈ ks)) as [Hin|Hout].
  - rewrite indexById_lookup. apply last_filter_unique.
    + by apply list_elem_of_fmap_2.
    + apply shifted_key_eq; auto.
    + intros y (j & -> & Hj)%list_elem_of_fmap Hy.
      rewrite shifted_key_eq in Hy by auto. by subst j.
  - destruct (indexById _ !! k) as [r|] eqn:E; [|done].
    apply indexById_Some in E as [(j & -> & Hj)%list_elem_of_fmap Hr].
    rewrite shifted_key_eq in Hr by auto. by subst j.
Qed.

(** The properties of a pool after an update has been merged together
    with the shifted siblings [ks]. *)
Lemma move_prop (now : Z) (st : RecordSetWithDate) (m : metaType) (u : obj)
    (ks : list string) (k : string) :
  pool_ok st → (∀ j, j ∈ ks → is_Some (entries st !! j)) →
  field_key (positionSource m) ≠ "id" →
  k ≠ "fetchedAt" →
  prop (addRecords now (u :: (shifted st m <$> ks)) st) k =
    if decide (k ∈ ks) then Some (shifted st m k)
    else if decide (k = key_of (read u "id")) then Some u
    else prop st k.
Proof.
  intros (dates & Hf & Hdom & Hts & Hix) Hks Hpos Hk.
  pose proof (indexById_shifted st m ks k Hix Hks Hpos) as Hsh.
  destruct (decide (k ∈ ks)) as [Hin|Hout].
  - apply addRecords_new. by apply indexById_cons_later.
  - destruct (decide (k = key_of (read u "id"))) as [->|Hne].
    + apply addRecords_new. by apply indexById_cons_first.
    + rewrite addRecords_prop by done.
      rewrite indexById_cons_other, Hsh by done. simpl.
      destruct (getFetchedAt _ _ _ !! k) as [t|] eqn:Et; [done|].
      rewrite getFetchedAt_lookup in Et. case_decide; [done|].
      rewrite Hf in Et. simpl in Et.
      unfold prop. rewrite decide_False by done.
      apply not_elem_of_dom in Et. rewrite Hdom in Et.
      apply not_elem_of_dom in Et. by rewrite Et.
Qed.

Lemma dataReducer_update (now : Z) (st : RecordSetWithDate) (a : action)
    (m : metaType) (p : payloadType) :
  meta a = Some m → optimistic m = true →
  fetch m = Some UPDATE ∨ fetch m = Some MOVE_NODE →
  payload a = Some p →
  dataReducer now st a =
    (u ← updatedRecordOf st (id p) (data p);
     siblings ← nextSiblingsOf st m (data p);
     Returns (addRecords now (u :: siblings) st)).
Proof.
  intros Hm Hopt Hkind Hp. unfold dataReducer, optimisticBranch, the_payload.
  rewrite Hm, Hopt, Hp. by destruct Hkind as [-> | ->].
Qed.

Lemma filterM_cannot_throw {A} (p : A → outcome bool) (l : list A) :
  (∀ x, x ∈ l → p x ≠ Throws) → filterM p l ≠ Throws.
Proof.
  induction l as [|x l IH]; intros Hp; simpl; [done|].
  destruct (p x) as [b| |] eqn:Ex; simpl; [| |done].
  - destruct (filterM p l) as [r| |] eqn:Er; simpl; [done| |done].
    exfalso. apply IH; [|done]. intros y Hy. apply Hp. by right.
  - exfalso. by apply (Hp x); [left|].
Qed.

Lemma isNextSibling_cannot_throw (st : RecordSetWithDate) (m : metaType) (d : obj) (k : string) :
  indexed_by_id st → is_Some (entries st !! k) →
  isNextSibling st m (DataObject d) k ≠ Throws.
Proof.
  intros Hix [s Hs]. destruct (Hix _ _ Hs) as [Hk (r & -> & Hr)].
  unfold isNextSibling, prop. rewrite decide_False by done. rewrite Hs. simpl.
  destruct (strict_eq _ _); [|done]. simpl. by destruct (js_ge _ _) as [[]|].
Qed.

Lemma isNextSibling_Returns (st : RecordSetWithDate) (m : metaType) (d : obj)
    (k : string) (r : obj) :
  prop st k = Some r →
  isNextSibling st m (DataObject d) k =
    if strict_eq (read r (field_key (parentSource m))) (read d (field_key (parentSource m)))
    then match js_ge (read r (field_key (positionSource m)))
                     (read d (field_key (positionSource m))) with
         | Some b => Returns b
         | None => Unmodelled
         end
    else Returns false.
Proof. intros Hr. unfold isNextSibling. rewrite Hr. simpl. by destruct (strict_eq _ _). Qed.

(** The siblings a move shifts, for a pool that satisfies the invariants
    and partial data that is an object: the enumeration cannot raise. *)
Lemma nextSiblingsOf_object (st : RecordSetWithDate) (m : metaType) (d : obj) :
  indexed_by_id st →
  nextSiblingsOf st m (DataObject d) ≠ Unmodelled →
  ∃ ks, nextSiblingsOf st m (DataObject d) = Returns (shifted st m <$> ks)
        ∧ (∀ k, k ∈ ks →
             is_Some (entries st !! k)
             ∧ truthy (positionSource m) = true
             ∧ isNextSibling st m (DataObject d) k = Returns true)
        ∧ (∀ k, is_Some (entries st !! k) → truthy (positionSource m) = true →
             isNextSibling st m (DataObject d) k = Returns true → k ∈ ks).
Proof.
  intros Hix. unfold nextSiblingsOf. destruct (truthy _) eqn:Ht.
  - destruct (filterM _ _) as [ks| |] eqn:Eks; simpl; [|exfalso|done].
    + intros _. exists ks. split; [done|].
      pose proof (filterM_Returns _ _ _ Eks) as Hks. split.
      * intros k [Hk ?]%Hks. by apply ownKeys_elem in Hk.
      * intros k Hk _ Hp. apply Hks. split; [|done]. by apply ownKeys_elem.
    + revert Eks. apply filterM_cannot_throw. intros k Hk%ownKeys_elem.
      by apply isNextSibling_cannot_throw.
  - intros _. exists []. split; [done|]. split.
    + intros k Hk. by apply elem_of_nil in Hk.
    + intros k _ Hf. done.
Qed.


(** C7, as amended.  In a pool that does not contain the target
    identifier, an optimistic update (or an update-many whose last target
    it is) does not fail, and the record at the target identifier
    consists exactly of the partial data of the event, provided that the
    partial data carries the target identifier in its own [id]: the
    reducer files the updated record under the [id] it finds in the
    record, not under the target of the event. *)
Theorem update_of_absent_record (now : Z) (st : RecordSetWithDate) (a : action)
    (m : metaType) (p : payloadType) (d : obj) (x : value) :
  pool_ok st →
  meta a = Some m → optimistic m = true →
  payload a = Some p → data p = DataObject d →
  getRecord st x = None →
  key_of (read d "id") = key_of x →
  field_key (positionSource m) ≠ "id" →
  dataReducer now st a ≠ Unmodelled →
  ((fetch m = Some UPDATE ∨ fetch m = Some MOVE_NODE) ∧ id p = x)
  ∨ (fetch m = Some UPDATE_MANY ∧ ∃ before : list value, ids p = Some (before ++ [x])%list) →
  ∃ st', dataReducer now st a = Returns st' ∧ getRecord st' x = Some d.
Proof.
  intros Hok Hm Hopt Hp Hd Hx Hid Hpos Hmodel [[Hkind <-]|[Hkind [before Hids]]].
  - rewrite (dataReducer_update now st a m p) in * by done.
    unfold updatedRecordOf in *. rewrite Hd in *. simpl in *.
    unfold getRecord in Hx. rewrite Hx in *. simpl in *.
    rewrite (right_id_L ∅ (∪)) in *.
    pose proof Hok as (dates & Hf & Hdom & Hts & Hix).
    destruct (nextSiblingsOf_object st m d Hix) as (ks & Hks & Hin & _).
    { intros E. rewrite E in Hmodel. by apply Hmodel. }
    rewrite Hks. simpl. eexists. split; [done|].
    unfold getRecord. apply addRecords_new. rewrite <- Hid.
    apply indexById_cons_first. rewrite indexById_shifted; [|done| |done].
    + rewrite decide_False; [done|]. intros [[s Hs] _]%Hin.
      destruct (Hix _ _ Hs) as [Hne (r & -> & _)]. rewrite Hid in *.
      unfold prop in Hx. rewrite decide_False, Hs in Hx by done. done.
    + intros j Hj. by apply Hin.
  - unfold dataReducer, optimisticBranch, the_payload.
    rewrite Hm, Hopt, Hkind, Hp. simpl. rewrite Hids, Hd. simpl.
    rewrite (mapOutcome_total _ (λ t, d ∪ default ∅ (prop st (key_of t)))) by done.
    simpl. eexists. split; [done|].
    unfold getRecord. apply addRecords_new.
    rewrite fmap_app. simpl. unfold getRecord in Hx. rewrite Hx. simpl.
    rewrite (right_id_L ∅ (∪)), indexById_snoc, Hid. apply lookup_insert_eq.
Qed.

(** C9.  When the target of an optimistic move is already in the pool with
    the parent the event gives and a position that is not below the
    position the event gives, the record at the target identifier after
    the move is the old record with its position incremented by one: the
    partial data of the event is not applied to it. *)
Theorem move_onto_own_place (now : Z) (st : RecordSetWithDate) (a : action)
    (m : metaType) (p : payloadType) (d old : obj) (pos : string) (n : Z) :
  pool_ok st →
  meta a = Some m → optimistic m = true →
  fetch m = Some UPDATE ∨ fetch m = Some MOVE_NODE →
  positionSource m = Some pos → pos ≠ "" → pos ≠ "id" →
  payload a = Some p → data p = DataObject d →
  entries st !! key_of (id p) = Some (Some old) →
  strict_eq (read old (field_key (parentSource m)))
            (read d (field_key (parentSource m))) = true →
  read old pos = VNum n →
  js_ge (VNum n) (read d pos) = Some true →
  dataReducer now st a ≠ Unmodelled →
  ∃ st', dataReducer now st a = Returns st'
         ∧ getRecord st' (id p) = Some (<[pos := VNum (n + 1)]> old).
Proof.
  intros Hok Hm Hopt Hkind Hps Hpos Hposid Hp Hd Hold Hparent Hn Hge Hmodel.
  pose proof Hok as (dates & Hf & Hdom & Hts & Hix).
  destruct (Hix _ _ Hold) as [Hk _].
  assert (prop st (key_of (id p)) = Some old) as Hprop.
  { unfold prop. by rewrite decide_False, Hold. }
  assert (field_key (positionSource m) = pos) as Hfk by by rewrite Hps.
  rewrite (dataReducer_update now st a m p) in Hmodel |- * by done.
  unfold updatedRecordOf in Hmodel |- *. rewrite Hd in Hmodel |- *.
  cbn [spread_data mbind outcome_bind] in Hmodel |- *.
  destruct (nextSiblingsOf_object st m d Hix) as (ks & Hks & Hin & Hall).
  { intros E. rewrite E in Hmodel. by apply Hmodel. }
  rewrite Hks. simpl. eexists. split; [done|].
  unfold getRecord. rewrite move_prop; [|done| |by rewrite Hfk|done].
  - rewrite decide_True.
    + unfold shifted. rewrite Hprop, Hfk. simpl. by rewrite Hn.
    + apply Hall; [by eexists| |].
      * rewrite Hps. simpl. by apply bool_decide_eq_true.
      * rewrite (isNextSibling_Returns _ _ _ _ old Hprop), Hparent, Hfk, Hn, Hge. done.
  - intros j Hj. by apply Hin.
Qed.



End Properties.

(* ================================================================== *)
(** * Further properties of the reducer and of its helpers *)

Section Further.
Context `{OwnKeys}.

(** ** Shared facts *)

(** In a pool that satisfies the invariants, a property of the result of
    a merge is the new record of that key when there is one, and the old
    property otherwise. *)
Lemma addRecords_prop_ok (now : Z) (rs : list obj) (st : RecordSetWithDate) (k : string) :
  pool_ok st → k ≠ "fetchedAt" →
  prop (addRecords now rs st) k = or_slot (indexById rs !! k) (prop st k).
Proof.
  intros (dates & Hf & Hdom & _ & Hix) Hk. rewrite addRecords_prop by done.
  destruct (getFetchedAt _ _ _ !! k) as [t|] eqn:Et; [done|].
  rewrite getFetchedAt_lookup, Hf in Et. simpl in Et.
  destruct (decide _) as [|Hout]; [done|].
  destruct (indexById rs !! k) as [r|] eqn:Er.
  - apply indexById_Some in Er as [Hin <-]. destruct Hout.
    rewrite <- list_fmap_compose. apply list_elem_of_fmap. by exists r.
  - simpl. unfold prop. rewrite decide_False by done.
    apply not_elem_of_dom in Et. rewrite Hdom in Et.
    apply not_elem_of_dom in Et. by rewrite Et.
Qed.

Lemma addRecords_fetchedAtOf (now : Z) (rs : list obj) (st : RecordSetWithDate) (k : string) :
  pool_ok st →
  Forall (λ r, key_of (read r "id") ≠ "fetchedAt") rs →
  fetchedAtOf (addRecords now rs st) k =
    if decide (k ∈ key_of <$> ((λ r, read r "id") <$> rs))
    then Some (VNum now) else fetchedAtOf st k.
Proof.
  intros Hok Hrs. unfold fetchedAtOf.
  rewrite addRecords_fetchedAt_ok by done. simpl.
  rewrite getFetchedAt_lookup. destruct Hok as (dates & -> & _). done.
Qed.

Lemma indexById_app (rs1 rs2 : list obj) (k : string) :
  indexById (rs1 ++ rs2) !! k = or_slot (indexById rs2 !! k) (indexById rs1 !! k).
Proof.
  rewrite !indexById_lookup, filter_app, last_app.
  by destruct (last (filter _ rs2)).
Qed.

Lemma indexById_is_Some (rs : list obj) (k : string) :
  is_Some (indexById rs !! k) ↔ k ∈ key_of <$> ((λ r, read r "id") <$> rs).
Proof.
  rewrite <- list_fmap_compose. split.
  - intros [r [Hin <-]%indexById_Some]. apply list_elem_of_fmap. by exists r.
  - intros (r & -> & Hin)%list_elem_of_fmap.
    destruct (indexById rs !! _) as [r'|] eqn:E; [by eexists|].
    by destruct (indexById_None _ _ E r Hin).
Qed.

Lemma pool_ok_entry (st : RecordSetWithDate) (k : string) (s : slot) :
  pool_ok st → entries st !! k = Some s →
  k ≠ "fetchedAt" ∧ ∃ r, s = Some r ∧ prop st k = Some r ∧ key_of (read r "id") = k.
Proof.
  intros (dates & _ & _ & _ & Hix) Hs. destruct (Hix _ _ Hs) as [Hk (r & -> & Hr)].
  split; [done|]. exists r. split; [done|]. split; [|done].
  unfold prop. by rewrite decide_False, Hs.
Qed.

Lemma indexById_last (before : list obj) (r : obj) (after : list obj) :
  Forall (λ r', key_of (read r' "id") ≠ key_of (read r "id")) after →
  indexById (before ++ r :: after) !! key_of (read r "id") = Some r.
Proof.
  intros Hafter.
  rewrite indexById_app, (indexById_cons_first r after); [done|].
  destruct (indexById after !! _) as [r'|] eqn:E; [|done].
  apply indexById_Some in E as [Hin Hkey].
  rewrite Forall_forall in Hafter. by destruct (Hafter r' Hin).
Qed.

(** ** [addRecords] *)

(** X2.  Whatever the pool, a merged record can be read back with
    [getRecord] under its own id, unless a later record of the same merge
    has the same id: of several records with one id the last wins. *)
Theorem merged_record_is_retrievable (now : Z) (st : RecordSetWithDate)
    (before : list obj) (r : obj) (after : list obj) :
  Forall (λ r', key_of (read r' "id") ≠ key_of (read r "id")) after →
  getRecord (addRecords now (before ++ r :: after) st) (read r "id") = Some r.
Proof. intros Hafter. by apply addRecords_new, indexById_last. Qed.


(** X4.  Whatever the pool, after a merge the identifiers of the records
    are the identifiers of the metadata map, provided only that the
    reserved key is neither in the old metadata map nor the id of a new
    record; an old record that has no timestamp and is not supplied anew
    is dropped. *)
Theorem addRecords_restores_key_sets (now : Z) (rs : list obj) (st : RecordSetWithDate) :
  Forall (λ r, key_of (read r "id") ≠ "fetchedAt") rs →
  fetchedAtOf st "fetchedAt" = None →
  (∃ dates, fetchedAt (addRecords now rs st) = Some dates
            ∧ dom (entries (addRecords now rs st)) = dom dates)
  ∧ (∀ k, k ≠ "fetchedAt" → fetchedAtOf st k = None →
       k ∉ key_of <$> ((λ r, read r "id") <$> rs) →
       prop (addRecords now rs st) k = None).
Proof.
  intros Hrs Hold.
  set (dates := getFetchedAt now ((λ r, read r "id") <$> rs) (fetchedAt st)).
  assert (∀ k, k ∉ key_of <$> ((λ r, read r "id") <$> rs) →
            dates !! k = fetchedAtOf st k) as Hd.
  { intros k Hk. unfold dates, fetchedAtOf.
    rewrite getFetchedAt_lookup, decide_False by done. by destruct (fetchedAt st). }
  assert ("fetchedAt" ∉ key_of <$> ((λ r, read r "id") <$> rs)) as Hres.
  { rewrite <- list_fmap_compose. intros (r & Hr & Hin)%list_elem_of_fmap.
    rewrite Forall_forall in Hrs. by apply (Hrs r Hin). }
  split.
  - exists dates. split.
    + rewrite addRecords_fetchedAt. fold dates. cbv zeta. by rewrite (Hd _ Hres), Hold.
    + apply set_eq. intros k. rewrite !elem_of_dom, addRecords_entries. fold dates.
      destruct (decide (k = "fetchedAt")) as [->|Hk].
      * rewrite (Hd _ Hres), Hold. split; intros [? ?]; done.
      * destruct (dates !! k); split; intros [? ?]; try done; by eexists.
  - intros k Hk Hnone Hout. rewrite addRecords_prop by done. fold dates.
    by rewrite (Hd _ Hout), Hnone.
Qed.


(** X6.  A record whose id is the name of the metadata property takes the
    place of the metadata map: after it has been merged into a pool that
    satisfies the invariants, the property [fetchedAt] holds that record,
    every timestamp is lost, and the records are those of the old pool. *)
Theorem reserved_id_replaces_metadata (now : Z) (st : RecordSetWithDate) (r : obj) :
  pool_ok st → read r "id" = VStr "fetchedAt" →
  fetchedAt (addRecords now [r] st) = Some r
  ∧ entries (addRecords now [r] st) = entries st
  ∧ ∀ k, fetchedAtOf (addRecords now [r] st) k = r !! k.
Proof.
  intros Hok Hid.
  assert (indexById [r] = {[ "fetchedAt" := r ]}) as Hidx.
  { unfold indexById. simpl. by rewrite Hid. }
  assert (∀ k, getFetchedAt now ((λ r, read r "id") <$> [r]) (fetchedAt st) !! k =
               if decide (k = "fetchedAt") then Some (VNum now)
               else default ∅ (fetchedAt st) !! k) as Hd.
  { intros k. simpl. rewrite Hid. unfold getFetchedAt. simpl.
    rewrite lookup_insert. repeat case_decide; congruence. }
  assert (fetchedAt (addRecords now [r] st) = Some r) as Hf.
  { rewrite addRecords_fetchedAt. cbv zeta. rewrite Hd, decide_True by done.
    by rewrite Hidx, lookup_singleton_eq. }
  split; [done|]. split.
  - apply map_eq. intros k. rewrite addRecords_entries, Hd.
    destruct Hok as (dates & Hfo & Hdom & _ & Hix).
    destruct (decide (k = "fetchedAt")) as [->|Hk].
    + symmetry. by apply pool_ok_hidden.
    + rewrite Hfo. simpl. rewrite Hidx, lookup_singleton_ne by done. simpl.
      destruct (dates !! k) as [t|] eqn:Et.
      * destruct (pool_ok_prop st dates k Hix Hfo Hdom) as (r' & Hp & -> & _); [by eexists|].
        by rewrite Hp.
      * symmetry. apply not_elem_of_dom. rewrite <- Hdom. by apply not_elem_of_dom.
  - intros k. unfold fetchedAtOf. by rewrite Hf.
Qed.


(** ** [removeRecords] *)

Lemma includes_app (ids1 ids2 : list value) (k : string) :
  includes (ids1 ++ ids2) k = includes ids1 k || includes ids2 k.
Proof. unfold includes. apply existsb_app. Qed.

Lemma includes_decide (removed : list value) (k : string) :
  includes removed k = bool_decide (VStr k ∈ removed).
Proof.
  destruct (includes removed k) eqn:E; symmetry.
  - apply bool_decide_eq_true. by apply includes_spec.
  - apply bool_decide_eq_false. intros Hin%includes_spec. congruence.
Qed.

Lemma removeRecords_lookup (removed : list value) (st st' : RecordSetWithDate) :
  removeRecords removed st = Returns st' →
  (∀ k, k ≠ "fetchedAt" →
     prop st' k = if bool_decide (VStr k ∈ removed) then None else prop st k)
  ∧ (∀ k, fetchedAtOf st' k
          = if bool_decide (VStr k ∈ removed) then None else fetchedAtOf st k).
Proof.
  destruct (fetchedAt st) as [dates|] eqn:Hf; [|by rewrite removeRecords_Throws].
  rewrite (removeRecords_Returns _ _ _ Hf). intros [= <-].
  unfold prop, fetchedAtOf. cbn [fetchedAt entries mbind option_bind]. split.
  - intros k Hk. rewrite !decide_False by done. rewrite lookup_delete_ne by done.
    rewrite lookup_filter_keys, includes_decide. by destruct (bool_decide _).
  - intros k. rewrite lookup_filter_keys, includes_decide, Hf. by destruct (bool_decide _).
Qed.

Lemma filter_keys_ext {A} (P Q : string → bool) (mp : gmap string A) :
  (∀ k, P k = Q k) →
  filter (λ kv, ¬ P kv.1) mp = filter (λ kv, ¬ Q kv.1) mp.
Proof. intros HPQ. apply map_filter_ext. intros k x _. simpl. by rewrite HPQ. Qed.

(** X7.  [removeRecords] evicts exactly the identifiers given as strings:
    under such a key both the record and the timestamp are gone, under
    every other key both are what they were.  An identifier given as a
    number names no key. *)
Theorem removeRecords_evicts_exactly (removed : list value) (st : RecordSetWithDate)
    (dates : obj) :
  fetchedAt st = Some dates →
  ∃ st', removeRecords removed st = Returns st'
    ∧ ∀ k, k ≠ "fetchedAt" →
        prop st' k = (if bool_decide (VStr k ∈ removed) then None else prop st k)
        ∧ fetchedAtOf st' k
          = (if bool_decide (VStr k ∈ removed) then None else fetchedAtOf st k).
Proof.
  intros Hf. rewrite (removeRecords_Returns _ _ _ Hf). eexists. split; [done|].
  intros k Hk. unfold prop, fetchedAtOf. cbn [fetchedAt entries mbind option_bind].
  rewrite !decide_False by done. rewrite lookup_delete_ne by done.
  rewrite !lookup_filter_keys, includes_decide, Hf.
  by destruct (bool_decide _).
Qed.

(** X8.  Evicting nothing changes nothing: an optimistic delete-many
    whose list of identifiers is empty, or missing, returns the pool it
    was given. *)
Theorem delete_many_of_nothing (now : Z) (st : RecordSetWithDate) (a : action)
    (m : metaType) (p : payloadType) :
  pool_ok st →
  meta a = Some m → optimistic m = true → fetch m = Some DELETE_MANY →
  payload a = Some p → ids p = None ∨ ids p = Some [] →
  dataReducer now st a = Returns st.
Proof.
  intros Hok Hm Hopt Hkind Hp Hids.
  unfold dataReducer, optimisticBranch, the_payload.
  rewrite Hm, Hopt, Hkind, Hp. simpl.
  assert (default [] (ids p) = []) as -> by by destruct Hids as [-> | ->].
  by apply removeRecords_numbers.
Qed.


(** X10.  Two evictions in a row are one eviction of the two lists
    together; so the order of two evictions does not matter and an
    eviction made twice is the eviction made once. *)
Theorem removeRecords_twice (ids1 ids2 : list value) (st : RecordSetWithDate)
    (dates : obj) :
  fetchedAt st = Some dates →
  ∃ st1, removeRecords ids1 st = Returns st1
    ∧ removeRecords ids2 st1 = removeRecords (ids1 ++ ids2) st
    ∧ removeRecords ids2 st1 = removeRecords (ids2 ++ ids1) st
    ∧ removeRecords ids1 st1 = Returns st1.
Proof.
  intros Hf. rewrite (removeRecords_Returns _ _ _ Hf). eexists. split; [done|].
  assert (∀ l1 l2 : list value,
    removeRecords l2
      {| fetchedAt := Some (filter (λ kv, ¬ includes l1 kv.1) dates);
         entries := delete "fetchedAt" (filter (λ kv, ¬ includes l1 kv.1) (entries st)) |}
    = Returns
      {| fetchedAt := Some (filter (λ kv, ¬ (includes l1 kv.1 || includes l2 kv.1)) dates);
         entries := delete "fetchedAt"
           (filter (λ kv, ¬ (includes l1 kv.1 || includes l2 kv.1)) (entries st)) |}) as Hstep.
  { intros l1 l2. erewrite removeRecords_Returns; [|done]. simpl. do 2 f_equal.
    - f_equal. apply map_eq. intros k.
      rewrite lookup_filter_keys, lookup_filter_keys.
      destruct (includes l1 k) eqn:E1, (includes l2 k) eqn:E2, (dates !! k) as [v|] eqn:Ev;
        simpl; symmetry; first
          [ apply map_lookup_filter_None; right; intros x _; simpl; rewrite E1, E2; by intros Hn
          | apply map_lookup_filter_None; by left
          | apply map_lookup_filter_Some; split; [done|]; simpl; rewrite E1, E2; by intros [] ].
    - apply map_eq. intros k. destruct (decide (k = "fetchedAt")) as [->|Hk].
      { by rewrite !lookup_delete_eq. }
      rewrite !lookup_delete_ne by done.
      rewrite lookup_filter_keys, lookup_delete_ne, lookup_filter_keys by done.
      destruct (includes l1 k) eqn:E1, (includes l2 k) eqn:E2,
        (entries st !! k) as [v|] eqn:Ev;
        simpl; symmetry; first
          [ apply map_lookup_filter_None; right; intros x _; simpl; rewrite E1, E2; by intros Hn
          | apply map_lookup_filter_None; by left
          | apply map_lookup_filter_Some; split; [done|]; simpl; rewrite E1, E2; by intros [] ]. }
  assert (∀ l : list value,
    removeRecords l st
    = Returns
      {| fetchedAt := Some (filter (λ kv, ¬ includes l kv.1) dates);
         entries := delete "fetchedAt" (filter (λ kv, ¬ includes l kv.1) (entries st)) |})
    as Hone by (intros l; by apply removeRecords_Returns).
  rewrite !Hstep, !Hone. split; [|split].
  - do 3 f_equal; [f_equal|];
      apply (filter_keys_ext (λ k, includes ids1 k || includes ids2 k)
                             (λ k, includes (ids1 ++ ids2) k));
      intros k; by rewrite includes_app.
  - do 3 f_equal; [f_equal|];
      apply (filter_keys_ext (λ k, includes ids1 k || includes ids2 k)
                             (λ k, includes (ids2 ++ ids1) k));
      intros k; rewrite includes_app; apply orb_comm.
  - do 3 f_equal; [f_equal|];
      apply (filter_keys_ext (λ k, includes ids1 k || includes ids1 k)
                             (λ k, includes ids1 k));
      intros k; apply orb_diag.
Qed.

(** ** [dataReducer]: optimistic mutations *)

Lemma updated_keeps_id (st : RecordSetWithDate) (d : obj) (k : string) :
  pool_ok st → d !! "id" = None → is_Some (entries st !! k) →
  key_of (read (d ∪ default ∅ (prop st k)) "id") = k.
Proof.
  intros Hok Hd [s Hs]. rewrite read_union, Hd.
  destruct (pool_ok_entry _ _ _ Hok Hs) as [_ (r & _ & -> & Hr)]. done.
Qed.

(** X11.  An optimistic update-many whose partial data has no [id]
    updates every target that is in the pool: the record at each target
    is the old record with the partial data spread over it, its timestamp
    is the reading of the clock, and every other record and timestamp is
    untouched. *)
Theorem update_many_merges_every_target (now : Z) (st : RecordSetWithDate) (a : action)
    (m : metaType) (p : payloadType) (d : obj) (targets : list value) :
  pool_ok st →
  meta a = Some m → optimistic m = true → fetch m = Some UPDATE_MANY →
  payload a = Some p → data p = DataObject d → d !! "id" = None →
  ids p = Some targets →
  Forall (λ t, is_Some (entries st !! key_of t)) targets →
  ∃ st', dataReducer now st a = Returns st'
    ∧ (∀ t old, t ∈ targets → getRecord st t = Some old →
         getRecord st' t = Some (d ∪ old)
         ∧ fetchedAtOf st' (key_of t) = Some (VNum now))
    ∧ (∀ k, k ≠ "fetchedAt" → k ∉ key_of <$> targets →
         prop st' k = prop st k ∧ fetchedAtOf st' k = fetchedAtOf st k).
Proof.
  intros Hok Hm Hopt Hkind Hp Hd Hid Hids Hin.
  unfold dataReducer, optimisticBranch, the_payload.
  rewrite Hm, Hopt, Hkind, Hp. simpl. rewrite Hids, Hd. simpl.
  set (mk := λ t : value, d ∪ default ∅ (prop st (key_of t))).
  rewrite (mapOutcome_total _ mk) by done. simpl. eexists. split; [done|].
  assert (key_of <$> ((λ r, read r "id") <$> (mk <$> targets)) = key_of <$> targets) as Hkeys.
  { rewrite <- !list_fmap_compose. apply Forall_fmap_ext_1.
    eapply Forall_impl; [exact Hin|]. intros t Ht. simpl. by apply updated_keeps_id. }
  assert (Forall (λ r, key_of (read r "id") ≠ "fetchedAt") (mk <$> targets)) as Hrs.
  { apply Forall_fmap. eapply Forall_impl; [exact Hin|]. intros t [s Hs]. simpl. unfold mk.
    rewrite updated_keeps_id; [|done..|by eexists].
    by destruct (pool_ok_entry _ _ _ Hok Hs). }
  split.
  - intros t old Ht Hold. unfold getRecord in *.
    rewrite Forall_forall in Hin. split.
    + apply addRecords_new. rewrite indexById_lookup.
      apply last_filter_unique.
      * apply list_elem_of_fmap. exists t. unfold mk. by rewrite Hold.
      * replace old with (default ∅ (prop st (key_of t))) by (by rewrite Hold).
        apply (updated_keeps_id st d (key_of t)); auto.
      * intros y (t' & -> & Ht')%list_elem_of_fmap Hy. unfold mk in *.
        rewrite updated_keeps_id in Hy by auto. by rewrite Hy, Hold.
    + rewrite addRecords_fetchedAtOf, Hkeys by done.
      rewrite decide_True; [done|]. by apply list_elem_of_fmap_2.
  - intros k Hk Hout. split.
    + rewrite addRecords_prop_ok by done.
      destruct (indexById (mk <$> targets) !! k) as [r|] eqn:E; [|done].
      destruct Hout. rewrite <- Hkeys. apply indexById_is_Some. by eexists.
    + rewrite addRecords_fetchedAtOf, Hkeys by done. by rewrite decide_False.
Qed.

(** X12.  Which records an optimistic move shifts.  With a position field
    other than [id], in a pool that satisfies the invariants, the records
    whose parent is the parent the event gives and whose position is not
    below the position the event gives get their position incremented by
    one, the target of the move included when it is among them; every
    other record, the updated one apart, is left as it was: no position is
    ever decremented, and the place the moved record leaves is not
    closed. *)
Theorem move_shifts_exactly (now : Z) (st : RecordSetWithDate) (a : action)
    (m : metaType) (p : payloadType) (d : obj) (pos : string) :
  pool_ok st →
  meta a = Some m → optimistic m = true →
  fetch m = Some UPDATE ∨ fetch m = Some MOVE_NODE →
  positionSource m = Some pos → pos ≠ "" → pos ≠ "id" →
  payload a = Some p → data p = DataObject d →
  dataReducer now st a ≠ Unmodelled →
  ∃ st', dataReducer now st a = Returns st'
    ∧ ∀ k r, entries st !! k = Some (Some r) →
        let follows :=
          strict_eq (read r (field_key (parentSource m)))
                    (read d (field_key (parentSource m))) = true
          ∧ js_ge (read r pos) (read d pos) = Some true in
        (follows → prop st' k = Some (<[pos := js_add1 (read r pos)]> r))
        ∧ (¬ follows →
           k ≠ key_of (read (d ∪ default ∅ (getRecord st (id p))) "id") →
           prop st' k = Some r).
Proof.
  intros Hok Hm Hopt Hkind Hps Hpos Hposid Hp Hd Hmodel.
  pose proof Hok as (dates & Hf & Hdom & Hts & Hix).
  assert (field_key (positionSource m) = pos) as Hfk by by rewrite Hps.
  assert (truthy (positionSource m) = true) as Htruthy.
  { rewrite Hps. simpl. by apply bool_decide_eq_true. }
  rewrite (dataReducer_update now st a m p) in Hmodel |- * by done.
  unfold updatedRecordOf in Hmodel |- *. rewrite Hd in Hmodel |- *.
  cbn [spread_data mbind outcome_bind] in Hmodel |- *.
  destruct (nextSiblingsOf_object st m d Hix) as (ks & Hks & Hin & Hall).
  { intros E. rewrite E in Hmodel. by apply Hmodel. }
  rewrite Hks. simpl. eexists. split; [done|]. intros k r Hk.
  destruct (pool_ok_entry _ _ _ Hok Hk) as [Hne (r' & [= <-] & Hprop & _)].
  pose proof (isNextSibling_Returns st m d k r Hprop) as Hsib. rewrite Hfk in Hsib.
  assert (∀ j, j ∈ ks → is_Some (entries st !! j)) as Hks_in by (intros j Hj; by apply Hin).
  split.
  - intros [Hparent Hge].
    rewrite move_prop; [|done|done|by rewrite Hfk|done].
    rewrite decide_True.
    + unfold shifted. by rewrite Hprop, Hfk.
    + apply Hall; [by eexists|done|]. by rewrite Hsib, Hparent, Hge.
  - intros Hnot Hku.
    rewrite move_prop; [|done|done|by rewrite Hfk|done].
    rewrite decide_False.
    + by rewrite decide_False.
    + intros [_ [_ Htrue]]%Hin. apply Hnot. rewrite Hsib in Htrue.
      destruct (strict_eq _ _); [|done]. split; [done|].
      by destruct (js_ge _ _) as [[]|].
Qed.

Lemma ownKeys_nil {A} (mp : gmap string A) : ownKeys mp = [] ↔ mp = ∅.
Proof.
  split.
  - intros Hnil. apply map_empty. intros k.
    destruct (mp !! k) as [x|] eqn:E; [|done].
    assert (k ∈ ownKeys mp) as Hin by (apply ownKeys_elem; by eexists).
    rewrite Hnil in Hin. by apply elem_of_nil in Hin.
  - intros ->. destruct (ownKeys (∅ : gmap string A)) as [|k l] eqn:E; [done|].
    assert (k ∈ ownKeys (∅ : gmap string A)) as Hin by (rewrite E; left).
    apply ownKeys_elem in Hin as [x Hx]. by rewrite lookup_empty in Hx.
Qed.

(** X13.  An optimistic move that names a position field but carries no
    data raises on every pool that holds a record, and returns on the
    empty pool: [payload.data] is read only inside the filter over the
    keys of the pool. *)
Theorem move_without_data (now : Z) (st : RecordSetWithDate) (a : action)
    (m : metaType) (p : payloadType) :
  pool_ok st →
  meta a = Some m → optimistic m = true →
  fetch m = Some UPDATE ∨ fetch m = Some MOVE_NODE →
  truthy (positionSource m) = true →
  payload a = Some p → data p = DataUndefined →
  (entries st = ∅ → ∃ st', dataReducer now st a = Returns st')
  ∧ (entries st ≠ ∅ → dataReducer now st a = Throws).
Proof.
  intros Hok Hm Hopt Hkind Hpos Hp Hd.
  rewrite (dataReducer_update now st a m p) by done.
  unfold updatedRecordOf, nextSiblingsOf. rewrite Hd, Hpos.
  cbn [spread_data mbind outcome_bind]. split.
  - intros Hempty. apply ownKeys_nil in Hempty. rewrite Hempty. simpl. by eexists.
  - intros Hne. destruct (ownKeys (entries st)) as [|k l] eqn:E.
    { by apply ownKeys_nil in E. }
    assert (k ∈ ownKeys (entries st)) as Hin by (rewrite E; left).
    apply ownKeys_elem in Hin as [s Hs].
    destruct (pool_ok_entry _ _ _ Hok Hs) as [_ (r & _ & Hprop & _)].
    cbn [filterM].
    assert (isNextSibling st m DataUndefined k = Throws) as ->
      by (unfold isNextSibling; by rewrite Hprop).
    done.
Qed.

Lemma js_ge_numbers (x y : value) :
  (∀ s, x ≠ VStr s) → (∀ s, y ≠ VStr s) → is_Some (js_ge x y).
Proof.
  intros Hx Hy. destruct x as [| |bx|nx| |sx]; try (by destruct (Hx sx));
    destruct y as [| |b'|n'| |sy]; try (by destruct (Hy sy)); by eexists.
Qed.

(** X14.  An optimistic update or move whose data is an object never
    raises on a pool that satisfies the invariants, as long as no position
    it compares is a string. *)
Theorem move_returns (now : Z) (st : RecordSetWithDate) (a : action)
    (m : metaType) (p : payloadType) (d : obj) :
  pool_ok st →
  meta a = Some m → optimistic m = true →
  fetch m = Some UPDATE ∨ fetch m = Some MOVE_NODE →
  payload a = Some p → data p = DataObject d →
  (∀ s, read d (field_key (positionSource m)) ≠ VStr s) →
  (∀ k r, entries st !! k = Some (Some r) →
     ∀ s, read r (field_key (positionSource m)) ≠ VStr s) →
  ∃ st', dataReducer now st a = Returns st'.
Proof.
  intros Hok Hm Hopt Hkind Hp Hd Hdpos Hrpos.
  rewrite (dataReducer_update now st a m p) by done.
  unfold updatedRecordOf, nextSiblingsOf. rewrite Hd. simpl.
  destruct (truthy _); [|by eexists].
  destruct (filterM_total (isNextSibling st m (DataObject d)) (ownKeys (entries st)))
    as [ks ->]; [|by eexists].
  apply Forall_forall. intros k [s Hs]%ownKeys_elem.
  destruct (pool_ok_entry _ _ _ Hok Hs) as [_ (r & -> & Hprop & _)].
  rewrite (isNextSibling_Returns _ _ _ _ r Hprop).
  destruct (strict_eq _ _); [|by eexists].
  destruct (js_ge_numbers (read r (field_key (positionSource m)))
              (read d (field_key (positionSource m)))) as [b ->]; [by eapply Hrpos|done|].
  by eexists.
Qed.

(** ** [dataReducer]: reachable pools, settled responses and deletes *)

(** X15.  In every pool reached on events without the reserved id, every
    enumerated property holds a record, the record is filed under the key
    its own id converts to, [getRecord] at that id returns it, and it has
    a timestamp. *)
Theorem reachable_pools_are_indexed (st : RecordSetWithDate) (k : string) (s : slot) :
  reachable_by avoids_reserved st →
  entries st !! k = Some s →
  ∃ r t, s = Some r
         ∧ key_of (read r "id") = k
         ∧ getRecord st (read r "id") = Some r
         ∧ fetchedAtOf st k = Some (VNum t).
Proof.
  intros Hok%reachable_pool_ok Hs.
  destruct (pool_ok_entry _ _ _ Hok Hs) as [Hk (r & -> & Hprop & Hr)].
  destruct Hok as (dates & Hf & Hdom & Hts & _).
  assert (is_Some (dates !! k)) as [v Hv].
  { apply elem_of_dom. rewrite Hdom. apply elem_of_dom. by eexists. }
  destruct (Hts _ _ Hv) as [t ->]. exists r, t.
  split; [done|]. split; [done|]. split.
  - unfold getRecord. by rewrite Hr.
  - unfold fetchedAtOf. by rewrite Hf.
Qed.

Lemma optimisticBranch_None (now : Z) (st : RecordSetWithDate) (a : action) (m : metaType) :
  meta a = Some m → mutates m = false → optimisticBranch now st a = None.
Proof.
  intros Hm Hmut. unfold optimisticBranch, mutates in *. rewrite Hm.
  destruct (optimistic m); [|done]. by destruct (fetch m) as [[]|].
Qed.

(** X16.  After a completed fetch of a recognized kind, whatever the pool
    was, every record of the response can be read back with [getRecord]
    under its own id (the last one, of several with the same id): the
    records of the array for the kinds that list, the one record for the
    kinds that return one. *)
Theorem settled_records_are_retrievable (now : Z) (st : RecordSetWithDate) (a : action)
    (m : metaType) (p : payloadType) (kind : fetchType) (rs : list obj) :
  meta a = Some m → mutates m = false →
  fetchResponse m = Some kind → fetchStatus m = Some FETCH_END →
  payload a = Some p →
  (isBulk kind = true ∧ data p = DataArray rs)
  ∨ (isSingular kind = true ∧ ∃ r, data p = DataObject r ∧ rs = [r]) →
  ∃ st', dataReducer now st a = Returns st'
    ∧ ∀ before r after, rs = (before ++ r :: after)%list →
        Forall (λ r', key_of (read r' "id") ≠ key_of (read r "id")) after →
        getRecord st' (read r "id") = Some r.
Proof.
  intros Hm Hmut Hresp Hstatus Hp Hshape.
  unfold dataReducer. rewrite (optimisticBranch_None now st a m) by done.
  unfold settledBranch, the_payload. rewrite Hm, Hresp, Hstatus, Hp.
  assert (∀ rs', ∀ before r after, rs' = (before ++ r :: after)%list →
            Forall (λ r', key_of (read r' "id") ≠ key_of (read r "id")) after →
            getRecord (addRecords now rs' st) (read r "id") = Some r) as Hget.
  { intros rs' before r after -> Hafter. by apply addRecords_new, indexById_last. }
  destruct Hshape as [[Hkind Hd]|[Hkind (r0 & Hd & ->)]];
    destruct kind; try discriminate Hkind; simpl; rewrite Hd;
    eexists; (split; [done|]); apply Hget.
Qed.

(** X17.  An optimistic delete of an identifier given as a string, other
    than the name of the metadata property, removes that record and its
    timestamp and nothing else, and the pool it returns still satisfies
    the invariants. *)
Theorem optimistic_delete_evicts_one (now : Z) (st : RecordSetWithDate) (x : string) :
  pool_ok st → x ≠ "fetchedAt" →
  ∃ st', dataReducer now st (optimisticDelete (VStr x)) = Returns st'
    ∧ pool_ok st'
    ∧ getRecord st' (VStr x) = None
    ∧ fetchedAtOf st' x = None
    ∧ ∀ k, k ≠ x → k ≠ "fetchedAt" →
        prop st' k = prop st k ∧ fetchedAtOf st' k = fetchedAtOf st k.
Proof.
  intros Hok Hx. unfold dataReducer. simpl.
  pose proof Hok as (dates & Hf & _).
  destruct (removeRecords [VStr x] st) as [st'| |] eqn:Hrm;
    [|by rewrite (removeRecords_Returns _ _ _ Hf) in Hrm..].
  exists st'. split; [done|]. split; [by eapply removeRecords_pool_ok|].
  destruct (removeRecords_lookup _ _ _ Hrm) as [Hprop Hdates].
  assert (∀ j, bool_decide (VStr j ∈ [VStr x]) = bool_decide (j = x)) as Hinc.
  { intros j. apply bool_decide_ext. rewrite list_elem_of_singleton.
    split; [by intros [= ->]|by intros ->]. }
  split; [|split].
  - unfold getRecord. simpl. by rewrite Hprop, Hinc, bool_decide_eq_true_2.
  - by rewrite Hdates, Hinc, bool_decide_eq_true_2.
  - intros k Hk Hne. by rewrite Hprop, Hdates, Hinc, bool_decide_eq_false_2.
Qed.

End Further.

(* ================================================================== *)
(** * The properties on concrete pools *)

Lemma hello_pool_reachable (allowed : action → Prop) :
  allowed (fetched Examples.hello) → reachable_by allowed Examples.hello_pool.
Proof.
  intros Hallowed.
  apply (reach_reduce allowed 1549488187049 initialState (fetched Examples.hello));
    [apply reach_initial | exact Hallowed | vm_compute; reflexivity].
Defined.

Lemma getRecord_fetchedAt_is_metadata_witness :
  ∃ dates, getRecord Examples.hello_pool (VStr "fetchedAt") = Some dates
           ∧ fetchedAt Examples.hello_pool = Some dates
           ∧ "fetchedAt" ∉ ownKeys (entries Examples.hello_pool).
Proof.
  apply getRecord_fetchedAt_is_metadata. by apply hello_pool_reachable.
Defined.

Lemma key_sets_agree_witness :
  ∃ dates, fetchedAt Examples.hello_pool = Some dates
           ∧ dom (entries Examples.hello_pool) = dom dates.
Proof.
  apply key_sets_agree. apply hello_pool_reachable.
  intros p [= <-]. simpl. constructor; [|constructor].
  vm_compute. discriminate.
Defined.

(** C1, as stated, fails: once a record with the identifier ["fetchedAt"]
    has been fetched, the pool has no record, and the object its metadata
    property holds is that record, with the key ["id"]. *)
Lemma key_sets_differ_after_reserved_id :
  reachable Examples.clash_pool
  ∧ fetchedAt Examples.clash_pool = Some Examples.clash
  ∧ dom (entries Examples.clash_pool) ≠ dom Examples.clash.
Proof.
  split; [|split].
  - apply (reach_reduce _ 0 initialState (fetched Examples.clash));
      [apply reach_initial | exact I | vm_compute; reflexivity].
  - vm_compute. reflexivity.
  - intros Heq. assert ("id" ∈ dom Examples.clash) as Hin.
    { apply elem_of_dom. vm_compute. by eexists. }
    rewrite <- Heq in Hin. apply elem_of_dom in Hin as [s Hs].
    vm_compute in Hs. discriminate Hs.
Qed.

Lemma record_avoids_reserved (r : obj) :
  r !! "id" ≠ Some (VStr "fetchedAt") → avoids_reserved (fetched r).
Proof. intros Hr p [= <-]. simpl. by repeat constructor. Qed.

Lemma hello_pool_ok : pool_ok Examples.hello_pool.
Proof.
  apply reachable_pool_ok, hello_pool_reachable, record_avoids_reserved.
  vm_compute. discriminate.
Qed.

Lemma tree_pool_ok : pool_ok Examples.tree_pool.
Proof.
  apply reachable_pool_ok.
  apply (reach_reduce _ 100 initialState
           (Examples.listed [Examples.nodeA; Examples.nodeB; Examples.nodeC; Examples.nodeE]));
    [apply reach_initial | | vm_compute; reflexivity].
  intros p [= <-]. simpl. repeat constructor; vm_compute; discriminate.
Qed.


Lemma optimistic_delete_keeps_numeric_ids_witness :
  (dataReducer 200 Examples.hello_pool (optimisticDelete (VNum 12)) = Returns Examples.hello_pool
   ∧ dataReducer 200 Examples.hello_pool (optimisticDeleteMany [VNum 12]) = Returns Examples.hello_pool)
  ∧ getRecord Examples.hello_pool (VNum 12) = Some Examples.hello.
Proof.
  split; [|vm_compute; reflexivity].
  apply (optimistic_delete_keeps_numeric_ids 200 Examples.hello_pool 12 [VNum 12]).
  - apply hello_pool_ok.
  - repeat constructor. by exists 12.
Defined.

Lemma addRecords_nil_witness :
  addRecords 200 [] Examples.hello_pool = Examples.hello_pool.
Proof. apply addRecords_nil, hello_pool_ok. Defined.

Lemma addRecords_refresh_witness :
  getRecord (addRecords 1549488187050 [Examples.world] Examples.hello_pool) (VNum 12)
    = Some Examples.world
  ∧ fetchedAtOf (addRecords 1549488187050 [Examples.world] Examples.hello_pool) "12"
    = Some (VNum 1549488187050)
  ∧ ∃ before, fetchedAtOf Examples.hello_pool "12" = Some (VNum before)
      ∧ (before < 1549488187050 ↔ ∃ after,
           fetchedAtOf (addRecords 1549488187050 [Examples.world] Examples.hello_pool) "12"
             = Some (VNum after) ∧ before < after).
Proof.
  apply (addRecords_refresh 1549488187050 Examples.hello_pool Examples.world).
  - apply hello_pool_ok.
  - vm_compute. by eexists.
Defined.

(** C5, as stated, fails: a record refreshed within the millisecond in
    which it was last fetched keeps its timestamp. *)
Lemma refresh_within_the_same_instant :
  getRecord Examples.hello_pool (VNum 12) = Some Examples.hello
  ∧ getRecord (addRecords 1549488187049 [Examples.world] Examples.hello_pool) (VNum 12)
    = Some Examples.world
  ∧ ∃ before after,
      fetchedAtOf Examples.hello_pool "12" = Some (VNum before)
      ∧ fetchedAtOf (addRecords 1549488187049 [Examples.world] Examples.hello_pool) "12"
        = Some (VNum after)
      ∧ ¬ (before < after).
Proof.
  split; [vm_compute; reflexivity|]. split; [vm_compute; reflexivity|].
  exists 1549488187049, 1549488187049.
  split; [vm_compute; reflexivity|]. split; [vm_compute; reflexivity|]. lia.
Qed.

Lemma dataReducer_ignores_witness :
  dataReducer 200 Examples.hello_pool Examples.unknown = Returns Examples.hello_pool.
Proof.
  apply dataReducer_ignores. intros m [= <-]. split; reflexivity.
Defined.

(** C6, as stated, fails: an optimistic event whose mutation kind the
    reducer does not know falls through to the handling of fetch
    responses, and is merged when it carries the marks of a completed
    fetch. *)
Lemma unknown_mutation_kind_settles :
  (∃ m, meta Examples.archive = Some m ∧ optimistic m = true
        ∧ fetch m = Some (OTHER "ARCHIVE") ∧ isMutation (OTHER "ARCHIVE") = false)
  ∧ dataReducer 1549488187049 initialState Examples.archive = Returns Examples.hello_pool
  ∧ Examples.hello_pool ≠ initialState.
Proof.
  split; [by eexists|]. split; [vm_compute; reflexivity|].
  intros Heq. apply (f_equal (λ st, getRecord st (VNum 12))) in Heq.
  vm_compute in Heq. discriminate Heq.
Qed.

Lemma update_of_absent_record_witness :
  ∃ st', dataReducer 200 Examples.hello_pool (optimisticUpdate (VNum 5) Examples.titled)
           = Returns st'
         ∧ getRecord st' (VNum 5) = Some Examples.titled.
Proof.
  apply (update_of_absent_record 200 Examples.hello_pool
           (optimisticUpdate (VNum 5) Examples.titled)
           (optimisticMeta UPDATE None None)
           {| id := VNum 5; ids := None; data := DataObject Examples.titled |}
           Examples.titled (VNum 5));
    try reflexivity; try discriminate.
  - apply hello_pool_ok.
  - left. split; [by left|reflexivity].
Defined.

(** C7, as stated, fails: partial data without an [id] is filed under the
    key ["undefined"], and the target identifier stays absent. *)
Lemma update_of_absent_record_is_filed_elsewhere :
  getRecord initialState (VNum 5) = None
  ∧ dataReducer 0 initialState (optimisticUpdate (VNum 5) Examples.retitled)
    = Returns Examples.stray_pool
  ∧ getRecord Examples.stray_pool (VNum 5) = None
  ∧ getRecord Examples.stray_pool VUndef = Some Examples.retitled.
Proof. repeat split; vm_compute; reflexivity. Qed.


Lemma move_onto_own_place_witness :
  ∃ st', dataReducer 200 Examples.tree_pool Examples.move_B = Returns st'
         ∧ getRecord st' (VNum 2) = Some (<["position" := VNum (1 + 1)]> Examples.nodeB).
Proof.
  apply (move_onto_own_place 200 Examples.tree_pool Examples.move_B
           (optimisticMeta MOVE_NODE (Some "parent_id") (Some "position"))
           {| id := VNum 2; ids := None; data := DataObject Examples.to_front |}
           Examples.to_front Examples.nodeB "position" 1);
    try reflexivity; try discriminate.
  - apply tree_pool_ok.
  - by right.
Defined.



(* ================================================================== *)
(** * The further properties on concrete pools *)

Lemma merged_pool_records (now : Z) (rs : list obj) (k : string) (r : obj) :
  entries (addRecords now rs initialState) !! k = Some (Some r) → r ∈ rs.
Proof.
  intros Hk.
  assert (k ≠ "fetchedAt") as Hne.
  { intros ->. by rewrite addRecords_entries, decide_True in Hk. }
  pose proof (addRecords_prop_ok now rs initialState k initialState_pool_ok Hne) as Hprop.
  unfold prop in Hprop. rewrite !decide_False, Hk in Hprop by done. simpl in Hprop.
  destruct (indexById rs !! k) as [r'|] eqn:E; simpl in Hprop.
  - injection Hprop as ->. by apply indexById_Some in E as [? _].
  - unfold initialState, hideFetchedAt in Hprop. simpl in Hprop.
    rewrite delete_singleton_eq, lookup_empty in Hprop. discriminate Hprop.
Qed.

Lemma merged_record_is_retrievable_witness :
  getRecord (addRecords 0 ([Examples.hello] ++ Examples.world :: []) initialState)
            (read Examples.world "id") = Some Examples.world.
Proof. apply merged_record_is_retrievable. constructor. Defined.


Lemma addRecords_restores_key_sets_witness :
  (∃ dates, fetchedAt (addRecords 200 [Examples.nodeA] Examples.hello_pool) = Some dates
            ∧ dom (entries (addRecords 200 [Examples.nodeA] Examples.hello_pool)) = dom dates)
  ∧ (∀ k, k ≠ "fetchedAt" → fetchedAtOf Examples.hello_pool k = None →
       k ∉ key_of <$> ((λ r, read r "id") <$> [Examples.nodeA]) →
       prop (addRecords 200 [Examples.nodeA] Examples.hello_pool) k = None).
Proof.
  apply addRecords_restores_key_sets.
  - repeat constructor. vm_compute. discriminate.
  - vm_compute. reflexivity.
Defined.


Lemma reserved_id_replaces_metadata_witness :
  fetchedAt (addRecords 200 [Examples.clash] Examples.hello_pool) = Some Examples.clash
  ∧ entries (addRecords 200 [Examples.clash] Examples.hello_pool) = entries Examples.hello_pool
  ∧ ∀ k, fetchedAtOf (addRecords 200 [Examples.clash] Examples.hello_pool) k
         = Examples.clash !! k.
Proof.
  apply reserved_id_replaces_metadata.
  - apply hello_pool_ok.
  - vm_compute. reflexivity.
Defined.

Lemma removeRecords_evicts_exactly_witness :
  ∃ st', removeRecords [VStr "12"; VNum 7] Examples.hello_pool = Returns st'
    ∧ ∀ k, k ≠ "fetchedAt" →
        prop st' k = (if bool_decide (VStr k ∈ [VStr "12"; VNum 7]) then None
                      else prop Examples.hello_pool k)
        ∧ fetchedAtOf st' k
          = (if bool_decide (VStr k ∈ [VStr "12"; VNum 7]) then None
             else fetchedAtOf Examples.hello_pool k).
Proof.
  apply (removeRecords_evicts_exactly [VStr "12"; VNum 7] Examples.hello_pool
           {[ "12" := VNum 1549488187049 ]}).
  vm_compute. reflexivity.
Defined.

Lemma delete_many_of_nothing_witness :
  dataReducer 200 Examples.hello_pool Cases.delete_none = Returns Examples.hello_pool.
Proof.
  apply (delete_many_of_nothing 200 Examples.hello_pool Cases.delete_none
           (optimisticMeta DELETE_MANY None None)
           {| id := VUndef; ids := None; data := DataUndefined |});
    try reflexivity.
  - apply hello_pool_ok.
  - by left.
Defined.


Lemma removeRecords_twice_witness :
  ∃ st1, removeRecords [VStr "12"] Examples.tree_pool = Returns st1
    ∧ removeRecords [VStr "1"] st1 = removeRecords ([VStr "12"] ++ [VStr "1"]) Examples.tree_pool
    ∧ removeRecords [VStr "1"] st1 = removeRecords ([VStr "1"] ++ [VStr "12"]) Examples.tree_pool
    ∧ removeRecords [VStr "12"] st1 = Returns st1.
Proof.
  destruct tree_pool_ok as (dates & Hf & _).
  by apply (removeRecords_twice [VStr "12"] [VStr "1"] Examples.tree_pool dates).
Defined.

Lemma update_many_merges_every_target_witness :
  ∃ st', dataReducer 200 Examples.tree_pool Cases.check_two = Returns st'
    ∧ (∀ t old, t ∈ [VNum 1; VNum 2] → getRecord Examples.tree_pool t = Some old →
         getRecord st' t = Some (Cases.checked ∪ old)
         ∧ fetchedAtOf st' (key_of t) = Some (VNum 200))
    ∧ (∀ k, k ≠ "fetchedAt" → k ∉ key_of <$> [VNum 1; VNum 2] →
         prop st' k = prop Examples.tree_pool k
         ∧ fetchedAtOf st' k = fetchedAtOf Examples.tree_pool k).
Proof.
  apply (update_many_merges_every_target 200 Examples.tree_pool Cases.check_two
           (optimisticMeta UPDATE_MANY None None)
           {| id := VUndef; ids := Some [VNum 1; VNum 2];
              data := DataObject Cases.checked |}
           Cases.checked [VNum 1; VNum 2]); try reflexivity.
  - apply tree_pool_ok.
  - repeat constructor; vm_compute; by eexists.
Defined.

Lemma move_shifts_exactly_witness :
  ∃ st', dataReducer 200 Examples.tree_pool Examples.place_D = Returns st'
    ∧ ∀ k r, entries Examples.tree_pool !! k = Some (Some r) →
        let follows :=
          strict_eq (read r "parent_id") (read Examples.nodeD "parent_id") = true
          ∧ js_ge (read r "position") (read Examples.nodeD "position") = Some true in
        (follows → prop st' k = Some (<["position" := js_add1 (read r "position")]> r))
        ∧ (¬ follows →
           k ≠ key_of (read (Examples.nodeD
                              ∪ default ∅ (getRecord Examples.tree_pool (VNum 5))) "id") →
           prop st' k = Some r).
Proof.
  apply (move_shifts_exactly 200 Examples.tree_pool Examples.place_D
           (optimisticMeta MOVE_NODE (Some "parent_id") (Some "position"))
           {| id := VNum 5; ids := None; data := DataObject Examples.nodeD |}
           Examples.nodeD "position"); try reflexivity; try discriminate.
  - apply tree_pool_ok.
  - by right.
Defined.

Lemma move_without_data_witness :
  (entries Examples.tree_pool = ∅ →
     ∃ st', dataReducer 200 Examples.tree_pool Cases.bare_move = Returns st')
  ∧ (entries Examples.tree_pool ≠ ∅ →
     dataReducer 200 Examples.tree_pool Cases.bare_move = Throws).
Proof.
  apply (move_without_data 200 Examples.tree_pool Cases.bare_move
           (optimisticMeta MOVE_NODE (Some "parent_id") (Some "position"))
           {| id := VNum 2; ids := None; data := DataUndefined |}); try reflexivity.
  - apply tree_pool_ok.
  - by right.
Defined.

Lemma move_returns_witness :
  ∃ st', dataReducer 200 Examples.tree_pool Examples.place_D = Returns st'.
Proof.
  apply (move_returns 200 Examples.tree_pool Examples.place_D
           (optimisticMeta MOVE_NODE (Some "parent_id") (Some "position"))
           {| id := VNum 5; ids := None; data := DataObject Examples.nodeD |}
           Examples.nodeD); try reflexivity.
  - apply tree_pool_ok.
  - by right.
  - intros s. vm_compute. discriminate.
  - intros k r Hk%merged_pool_records s.
    repeat (apply elem_of_cons in Hk as [->|Hk]; [vm_compute; discriminate|]).
    by apply elem_of_nil in Hk.
Defined.

Lemma reachable_pools_are_indexed_witness :
  ∃ r t, Some Examples.hello = Some r
         ∧ key_of (read r "id") = "12"
         ∧ getRecord Examples.hello_pool (read r "id") = Some r
         ∧ fetchedAtOf Examples.hello_pool "12" = Some (VNum t).
Proof.
  apply (reachable_pools_are_indexed Examples.hello_pool "12" (Some Examples.hello)).
  - apply hello_pool_reachable, record_avoids_reserved. vm_compute. discriminate.
  - vm_compute. reflexivity.
Defined.

Lemma settled_records_are_retrievable_witness :
  ∃ st', dataReducer 200 Examples.hello_pool
           (Examples.listed [Examples.nodeA; Examples.nodeB]) = Returns st'
    ∧ ∀ before r after,
        [Examples.nodeA; Examples.nodeB] = (before ++ r :: after)%list →
        Forall (λ r', key_of (read r' "id") ≠ key_of (read r "id")) after →
        getRecord st' (read r "id") = Some r.
Proof.
  apply (settled_records_are_retrievable 200 Examples.hello_pool
           (Examples.listed [Examples.nodeA; Examples.nodeB])
           (settledMeta GET_LIST)
           {| id := VUndef; ids := None;
              data := DataArray [Examples.nodeA; Examples.nodeB] |}
           GET_LIST); try reflexivity.
  by left.
Defined.

Lemma optimistic_delete_evicts_one_witness :
  ∃ st', dataReducer 200 Examples.tree_pool (optimisticDelete (VStr "2")) = Returns st'
    ∧ pool_ok st'
    ∧ getRecord st' (VStr "2") = None
    ∧ fetchedAtOf st' "2" = None
    ∧ ∀ k, k ≠ "2" → k ≠ "fetchedAt" →
        prop st' k = prop Examples.tree_pool k
        ∧ fetchedAtOf st' k = fetchedAtOf Examples.tree_pool k.
Proof.
  apply optimistic_delete_evicts_one; [apply tree_pool_ok|discriminate].
Defined.
